(** * CGMM: the multinomial mixture trained by minibatch EM

    A shallow embedding of [CGMMTF/MultinomialMixtureTF.py].

    Scalars are exact rationals ([Qc], canonical fractions, so that equality
    is Leibniz equality and [ring]/[field] apply); the program's [float32]
    rounding is outside the model.  A tensor of shape [[n]] is a list, a
    tensor of shape [[n, m]] a list of [n] rows.  [tf.log] is not a rational
    function: it is a parameter [ln] of the model.  The session's variables
    are an explicit record threaded through every [sess.run].

    Where the float program would produce NaN or an infinity (a division by
    zero, the logarithm of zero), [Qc] gives [x / 0 = 0] and [ln 0] is a
    number; every statement below that depends on the value of a quotient or
    of the likelihood carries or establishes strictly positive operands:
    strictly positive initial parameters and labels in range, under which
    every numerator the program takes the logarithm of is strictly positive.

    What the TensorFlow and numpy operations do is taken from their
    documentation: the conversion of a fed array to the placeholder's
    [int32] (reduction modulo [2^32]), [gather_nd] on an empty [params] (an
    error), [gather_nd] and [scatter_add] on an index out of range (an error
    on CPU; a zero row, respectively a skipped update, on GPU), [squeeze]
    (every dimension of size 1 goes), the shape [scatter_add] requires of
    its updates, [argmax] (the first of the largest entries), [np.zeros] (no
    negative dimension) and [np.append] (both arguments flattened). *)

From Stdlib Require Import ZArith List Bool QArith Qcanon Lia Permutation.
Import ListNotations.

Local Open Scope Qc_scope.

(** ** Errors raised by the Python program *)

Inductive error : Type :=
| ValueError             (* numpy: negative dimensions are not allowed *)
| InvalidArgumentError   (* TensorFlow kernels: index out of range, empty reduction *)
| UnboundLocalError.     (* Python: local variable referenced before assignment *)

Inductive result (A : Type) : Type :=
| Ok (a : A)
| Err (e : error).

Arguments Ok {A} a.
Arguments Err {A} e.

Definition bind {A B : Type} (r : result A) (k : A -> result B) : result B :=
  match r with
  | Ok a => k a
  | Err e => Err e
  end.

Notation "x <- r ;; k" := (bind r (fun x => k))
  (at level 61, r at next level, right associativity).
Notation "' p <- r ;; k" := (bind r (fun x => let p := x in k))
  (at level 61, p pattern, r at next level, right associativity).

Fixpoint mapM {A B : Type} (f : A -> result B) (l : list A) : result (list B) :=
  match l with
  | [] => Ok []
  | a :: l' => b <- f a ;; bs <- mapM f l' ;; Ok (b :: bs)
  end.

(** The device whose kernels run the graph.  It only matters for indices that
    are out of range: the CPU kernels of [gather_nd] and [scatter_add] raise,
    the GPU kernels store a zero, respectively skip the index. *)
Inductive device : Type := CPU | GPU.

(** ** Tensors *)

Module Tensor.

Definition vec := list Qc.
Definition mat := list vec.

Definition fill (n : nat) (x : Qc) : vec := repeat x n.
Definition fill2 (n m : nat) (x : Qc) : mat := repeat (fill m x) n.

Fixpoint zip_with {A B D : Type} (f : A -> B -> D) (a : list A) (b : list B) : list D :=
  match a, b with
  | x :: a', y :: b' => f x y :: zip_with f a' b'
  | _, _ => []
  end.

Definition vadd : vec -> vec -> vec := zip_with Qcplus.
Definition vmul : vec -> vec -> vec := zip_with Qcmult.
Definition vdiv : vec -> vec -> vec := zip_with Qcdiv.

(** [tf.reduce_sum] of a vector, of a matrix, and of a matrix along axis 0
    (the result has the matrix's [cols] columns, also when it has no row). *)
Definition reduce_sum (v : vec) : Qc := fold_right Qcplus 0 v.
Definition reduce_sum_all (m : mat) : Qc := reduce_sum (map reduce_sum m).
Definition reduce_sum_axis0 (cols : nat) (m : mat) : vec :=
  fold_right vadd (fill cols 0) m.

(** Column [c] of a matrix. *)
Definition column (m : mat) (c : nat) : vec := map (fun row => nth c row 0) m.

(** The value an integer takes in an [int32] tensor: numpy's conversion
    keeps the low 32 bits, read in two's complement. *)
Definition int32 (z : Z) : Z :=
  ((z + 2147483648) mod 4294967296 - 2147483648)%Z.

(** The index [i], an [int32], addresses one of the [n] rows of a tensor. *)
Definition in_range (n : nat) (i : Z) : bool :=
  (0 <=? i)%Z && (i <? Z.of_nat n)%Z && (i <? 2147483648)%Z.

(** [tf.gather_nd params indices] for [params] of shape [[n, cols]] and
    [indices] of shape [[U, 1]]: row [indices[u]] of [params] for every [u].
    The kernel of either device first refuses to read any entry from a
    [params] that has none (no row, or no column). *)
Definition gather_nd (dev : device) (cols : nat) (params : mat) (indices : list Z)
  : result mat :=
  if ((length params =? 0)%nat || (cols =? 0)%nat) && negb (length indices =? 0)%nat
  then Err InvalidArgumentError   (* more than 0 entries requested, params is empty *)
  else mapM (fun i =>
               if in_range (length params) i then Ok (nth (Z.to_nat i) params [])
               else match dev with
                    | CPU => Err InvalidArgumentError
                    | GPU => Ok (fill cols 0)
                    end) indices.

Fixpoint add_row (ref : mat) (i : nat) (u : vec) : mat :=
  match ref, i with
  | [], _ => []
  | r :: ref', O => vadd r u :: ref'
  | r :: ref', S i' => r :: add_row ref' i' u
  end.

(** [tf.squeeze] of a tensor of shape [[U, 1]]: every dimension of size 1
    is removed, so the labels of a batch of one example become a scalar,
    those of any other batch a vector of shape [[U]]. *)
Inductive squeezed : Type :=
| Scalar (i : Z)
| Vector (l : list Z).

Definition squeeze (labels : list Z) : squeezed :=
  match labels with
  | [i] => Scalar i
  | _ => Vector labels
  end.

(** The loop of the [scatter_add] kernel over a vector of indices:
    [ref[indices[u], :] += updates[u, :]] for every [u], duplicates
    accumulating. *)
Fixpoint scatter_add_rows (dev : device) (ref : mat) (indices : list Z)
         (updates : mat) : result mat :=
  match indices, updates with
  | i :: indices', u :: updates' =>
      if in_range (length ref) i
      then scatter_add_rows dev (add_row ref (Z.to_nat i) u) indices' updates'
      else match dev with
           | CPU => Err InvalidArgumentError
           | GPU => scatter_add_rows dev ref indices' updates'
           end
  | _, _ => Ok ref
  end.

(** [tf.scatter_add ref indices updates] for [updates] of shape [[U, C]].
    The kernel first requires
    [updates.shape = indices.shape + ref.shape[1:]]: with a scalar index the
    update would have to be of shape [[C]], and the op raises. *)
Definition scatter_add (dev : device) (ref : mat) (indices : squeezed)
           (updates : mat) : result mat :=
  match indices with
  | Scalar _ => Err InvalidArgumentError
  | Vector l => scatter_add_rows dev ref l updates
  end.

Definition Qc_gtb (x y : Qc) : bool :=
  match (x ?= y) with Gt => true | _ => false end.

(** [tf.argmax] of one row: the index of the largest entry, the first one
    when the largest value occurs more than once.  [argmax_from i best bi l]
    scans [l], whose head has index [i], with [best] at index [bi] the
    largest entry so far. *)
Fixpoint argmax_from (i : nat) (best : Qc) (bi : nat) (l : vec) : nat :=
  match l with
  | [] => bi
  | x :: l' => if Qc_gtb x best then argmax_from (S i) x i l'
               else argmax_from (S i) best bi l'
  end.

Definition argmax (row : vec) : result nat :=
  match row with
  | [] => Err InvalidArgumentError   (* reduction axis is empty *)
  | x :: l => Ok (argmax_from 1 x 0 l)
  end.

End Tensor.
Import Tensor.

(** ** The model object and the session's variables *)

(** What [MultinomialMixture.__init__] fixes: the two sizes, the smoothing
    constant and the numpy array that the emission Variable starts from. *)
Record MultinomialMixture : Type := {
  C : nat;
  K : nat;
  smoothing : Qc;
  emission_init : mat
}.

(** The Variables [prior_num_acc], [prior_den_acc] (shape [[1]]),
    [emission_num_acc] (shape [[K, C]]) and [emission_den_acc] (shape [[1, C]]). *)
Record Accumulator : Type := {
  prior_numerator : vec;
  prior_denominator : Qc;
  emission_numerator : mat;
  emission_denominator : vec
}.

(** The values the session holds for the graph's Variables. *)
Record Variables : Type := {
  prior : vec;
  emission : mat;
  stats : Accumulator;
  likelihood : Qc
}.

Definition Qc_of_nat (n : nat) : Qc := Q2Qc (inject_Z (Z.of_nat n)).

(** [v / sum(v)] *)
Definition normalise (v : vec) : vec := map (fun x => x / reduce_sum v) v.

(** The emission array built by the loop [for i in range(0, c)]: column [i] is
    the [i]-th draw [np.random.uniform(size=k)], divided by its sum.
    [draw i v] is component [v] of that draw. *)
Definition initial_emission (k c : nat) (draw : nat -> nat -> Qc) : mat :=
  map (fun v => map (fun i => nth v (normalise (map (draw i) (seq 0 k))) 0) (seq 0 c))
      (seq 0 k).

(** [MultinomialMixture(c, k)].  A negative size makes the construction of
    the Variables' initial values (shapes [[c]] and [[k, c]]) raise
    [ValueError]; nothing else in the constructor looks at [c], [k]. *)
Definition __init__ (c k : Z) (draw : nat -> nat -> Qc) : result MultinomialMixture :=
  if ((c <? 0) || (k <? 0))%Z then Err ValueError
  else Ok {| C := Z.to_nat c;
             K := Z.to_nat k;
             smoothing := Q2Qc (1 # 10000000);
             emission_init := initial_emission (Z.to_nat k) (Z.to_nat c) draw |}.

(** The initial values of the accumulator Variables: the smoothing floor. *)
Definition smoothing_floor (m : MultinomialMixture) : Accumulator :=
  {| prior_numerator := fill (C m) (smoothing m);
     prior_denominator := smoothing m * Qc_of_nat (C m);
     emission_numerator := fill2 (K m) (C m) (smoothing m);
     emission_denominator := fill (C m) (smoothing m * Qc_of_nat (K m)) |}.

(** [sess.run(tf.global_variables_initializer())]: every Variable takes its
    initial value.  [pr c] is component [c] of the draw of
    [tf.random_uniform(shape=[C])] made by this run. *)
Definition global_variables_initializer (m : MultinomialMixture) (pr : nat -> Qc)
  : Variables :=
  {| prior := normalise (map pr (seq 0 (C m)));
     emission := emission_init m;
     stats := smoothing_floor m;
     likelihood := 0 |}.

(** ** The computation graph *)

Section Graph.

Variable ln : Qc -> Qc.            (* tf.log *)
Variable dev : device.
Variable m : MultinomialMixture.

(** *** The placeholder *)

(** [feed_dict={self.labels: batch}]: the placeholder [labels] has dtype
    [tf.int32], and the session converts the fed array to it.  The graph
    below only ever sees the converted labels. *)
Definition feed (batch : list Z) : list Z := map int32 batch.

(** *** E-step *)

(** [labels] is the value of the placeholder. *)
Definition emission_for_labels (st : Variables) (labels : list Z) : result mat :=
  gather_nd dev (C m) (emission st) labels.

(** [tf.multiply(emission_for_labels, reshape(prior, [1, C]))] *)
Definition numerator (st : Variables) (efl : mat) : mat :=
  map (fun row => vmul row (prior st)) efl.

(** [tf.matmul(emission_for_labels, reshape(prior, [C, 1]))] *)
Definition denominator (st : Variables) (efl : mat) : vec :=
  map (fun row => reduce_sum (vmul row (prior st))) efl.

(** [tf.divide(numerator, denominator)], the [[U, 1]] denominator broadcast. *)
Definition posterior_estimate (num : mat) (den : vec) : mat :=
  zip_with (fun n d => map (fun x => x / d) n) num den.

(** The E-step on one batch: numerator and posterior. *)
Definition e_step (st : Variables) (labels : list Z) : result (mat * mat) :=
  efl <- emission_for_labels st labels ;;
  let num := numerator st efl in
  Ok (num, posterior_estimate num (denominator st efl)).

(** [tf.assign_add(likelihood, [reduce_sum(posterior * log(numerator))])].
    The value is the program's when every entry of [num] is strictly
    positive; at an entry 0 the program's logarithm is [-inf] and its sum
    NaN, which [Qc] does not hold. *)
Definition compute_likelihood (st : Variables) (num post : mat) : Qc :=
  likelihood st + reduce_sum_all (zip_with vmul post (map (map ln) num)).

(** *** M-step, at each minibatch *)

Definition update_prior_num (a : Accumulator) (post : mat) : vec :=
  vadd (prior_numerator a) (reduce_sum_axis0 (C m) post).

Definition update_prior_den (a : Accumulator) (post : mat) : Qc :=
  prior_denominator a + reduce_sum_all post.

(** [labels = tf.squeeze(self.labels)], then the scatter. *)
Definition update_emission_num (a : Accumulator) (labels : list Z) (post : mat)
  : result mat :=
  scatter_add dev (emission_numerator a) (squeeze labels) post.

Definition update_emission_den (a : Accumulator) (post : mat) : vec :=
  vadd (emission_denominator a) (reduce_sum_axis0 (C m) post).

(** The four accumulator updates of one [sess.run]. *)
Definition m_step_accumulate (a : Accumulator) (labels : list Z) (post : mat)
  : result Accumulator :=
  en <- update_emission_num a labels post ;;
  Ok {| prior_numerator := update_prior_num a post;
        prior_denominator := update_prior_den a post;
        emission_numerator := en;
        emission_denominator := update_emission_den a post |}.

(** *** M-step, at the end of an epoch *)

(** [tf.divide(prior_numerator, prior_denominator)], shapes [[C]] and [[1]]. *)
Definition update_prior (a : Accumulator) : vec :=
  map (fun x => x / prior_denominator a) (prior_numerator a).

(** [tf.divide(emission_numerator, emission_denominator)], shapes [[K, C]]
    and [[1, C]]. *)
Definition update_emission (a : Accumulator) : mat :=
  map (fun row => vdiv row (emission_denominator a)) (emission_numerator a).

Definition m_step_finalize (st : Variables) : Variables :=
  {| prior := update_prior (stats st);
     emission := update_emission (stats st);
     stats := stats st;
     likelihood := likelihood st |}.

(** *** Inference *)

(** [tf.argmax(numerator, axis=1)] *)
Definition inference (num : mat) : result (list nat) := mapM argmax num.

(** *** The two calls of [sess.run] that feed a batch *)

(** [sess.run([compute_likelihood, update_prior_num, update_prior_den,
    update_emission_num, update_emission_den], feed_dict={labels: batch})]:
    the new values of the Variables and the fetched likelihood. *)
Definition run_training_step (st : Variables) (batch : list Z)
  : result (Variables * Qc) :=
  let labels := feed batch in
  '(num, post) <- e_step st labels ;;
  a <- m_step_accumulate (stats st) labels post ;;
  let l := compute_likelihood st num post in
  Ok ({| prior := prior st; emission := emission st; stats := a; likelihood := l |}, l).

(** [sess.run([self.inference], feed_dict={labels: batch})] *)
Definition run_inference (st : Variables) (batch : list Z)
  : result (Variables * list nat) :=
  let labels := feed batch in
  efl <- emission_for_labels st labels ;;
  states <- inference (numerator st efl) ;;
  Ok (st, states).

End Graph.

(** ** Training *)

(** The values [old_likelihood] and [delta] range over: a number or an
    infinity ([np.inf]). *)
Inductive ext : Type := NegInf | Fin (q : Qc) | PosInf.

(** [likelihood - old_likelihood], for a finite likelihood. *)
Definition ext_sub (l : Qc) (old : ext) : ext :=
  match old with
  | NegInf => PosInf
  | Fin o => Fin (l - o)
  | PosInf => NegInf
  end.

(** [delta > threshold], for a finite threshold. *)
Definition ext_gtb (delta : ext) (threshold : Qc) : bool :=
  match delta with
  | NegInf => false
  | Fin d => Qc_gtb d threshold
  | PosInf => true
  end.

(** What a call of [train] leaves behind when it returns: the values of the
    session's Variables, the epoch counter and the lines printed
    ([End of epoch <n> likelihood: <l>]). *)
Record TrainEnd : Type := {
  final : Variables;
  epochs : Z;
  printed : list (Z * Qc)
}.

Definition assign_likelihood (st : Variables) (l : Qc) : Variables :=
  {| prior := prior st; emission := emission st; stats := stats st; likelihood := l |}.

Section Train.

Variable ln : Qc -> Qc.
Variable dev : device.
Variable m : MultinomialMixture.
Variable batch_dataset : list (list Z).
Variable threshold : Qc.
Variable max_epochs : Z.

(** The inner [while True] loop over what is left of the batches.
    [lik] is the local variable [likelihood] of [train]: unbound ([None])
    until a batch has been run. *)
Fixpoint run_batches (st : Variables) (lik : option Qc) (batches : list (list Z))
  : result (Variables * option Qc) :=
  match batches with
  | [] => Ok (st, lik)                         (* OutOfRangeError: break *)
  | batch :: rest =>
      '(st', l) <- run_training_step ln dev m st batch ;;
      run_batches st' (Some l) rest
  end.

(** One pass of the outer loop's body, from [sess.run(iterator.initializer)]
    to the end of the M-step update. *)
Definition run_epoch (st : Variables) (lik : option Qc)
  : result (Variables * Qc) :=
  '(st1, lik1) <- run_batches (assign_likelihood st 0) lik batch_dataset ;;
  match lik1 with
  | None => Err UnboundLocalError              (* delta = likelihood - ... *)
  | Some l => Ok (m_step_finalize st1, l)
  end.

(** The outer [while] loop.  [fuel] bounds the number of iterations; [None]
    means it ran out (shown below not to happen for the fuel [train] gives). *)
Fixpoint train_loop (fuel : nat) (st : Variables) (current_epoch : Z)
         (old_likelihood delta : ext) (lik : option Qc) (out : list (Z * Qc))
  : option (result TrainEnd) :=
  match fuel with
  | O => None
  | S fuel' =>
      if (current_epoch <=? max_epochs)%Z && ext_gtb delta threshold then
        match run_epoch st lik with
        | Err e => Some (Err e)
        | Ok (st', l) =>
            train_loop fuel' st' (current_epoch + 1)%Z (Fin l)
                       (ext_sub l old_likelihood) (Some l)
                       (out ++ [((current_epoch + 1)%Z, l)])
        end
      else Some (Ok {| final := st; epochs := current_epoch; printed := out |})
  end.

(** [train(batch_dataset, sess, threshold, max_epochs)]; [pr] is the draw
    made by the Variables' initializer. *)
Definition train (pr : nat -> Qc) : option (result TrainEnd) :=
  train_loop (S (Z.to_nat (max_epochs + 1)))
             (global_variables_initializer m pr) 0%Z NegInf PosInf None [].

End Train.

(** ** Inference over a dataset *)

(** The values [predictions] takes in [perform_inference]: [None], the Python
    list that [sess.run([self.inference], ...)] returns (its one element the
    array of the batch's states), or the flat array built by [np.append]. *)
Inductive predictions : Type :=
| PyNone
| PyList (states : list (list nat))
| NdArray (a : list nat).

Section Inference.

Variable dev : device.
Variable m : MultinomialMixture.

Fixpoint inference_loop (st : Variables) (preds : predictions)
         (batches : list (list Z)) : result (Variables * predictions) :=
  match batches with
  | [] => Ok (st, preds)                       (* OutOfRangeError: break *)
  | batch :: rest =>
      '(st', a) <- run_inference dev m st batch ;;
      let states := [a] in
      let preds' :=
        match preds with
        | PyNone => PyList states
        | PyList l => NdArray (concat l ++ concat states)   (* np.append flattens *)
        | NdArray p => NdArray (p ++ concat states)
        end in
      inference_loop st' preds' rest
  end.

Definition perform_inference (st : Variables) (batch_dataset : list (list Z))
  : result (Variables * predictions) :=
  inference_loop st PyNone batch_dataset.

End Inference.

(** The labels a returned value holds, read in order; [None] holds none. *)
Definition ravel (p : predictions) : list nat :=
  match p with
  | PyNone => []
  | PyList l => concat l
  | NdArray a => a
  end.

(** ** Predicates used in the statements *)

Definition positive_vec (v : vec) : bool := forallb (fun x => Qc_gtb x 0) v.

(** A matrix of shape [[rows, cols]]. *)
Definition shaped (rows cols : nat) (a : mat) : bool :=
  (length a =? rows)%nat && forallb (fun r => (length r =? cols)%nat) a.

(** At least one hidden state, at least one symbol, a positive smoothing
    constant. *)
Definition valid_model (m : MultinomialMixture) : bool :=
  (0 <? C m)%nat && (0 <? K m)%nat && Qc_gtb (smoothing m) 0.

(** Prior of shape [[C]], emission of shape [[K, C]], every entry strictly
    positive. *)
Definition valid_parameters (m : MultinomialMixture) (st : Variables) : bool :=
  (length (prior st) =? C m)%nat && shaped (K m) (C m) (emission st)
  && positive_vec (prior st) && forallb positive_vec (emission st).

(** Prior of shape [[C]], emission of shape [[K, C]]. *)
Definition shaped_parameters (m : MultinomialMixture) (st : Variables) : bool :=
  (length (prior st) =? C m)%nat && shaped (K m) (C m) (emission st).

(** The accumulator has the shapes the constructor gave it. *)
Definition shaped_accumulator (m : MultinomialMixture) (a : Accumulator) : bool :=
  (length (prior_numerator a) =? C m)%nat
  && shaped (K m) (C m) (emission_numerator a)
  && (length (emission_denominator a) =? C m)%nat.

(** Every label of the batch is a symbol: in [[0, K)], as an [int32]. *)
Definition labels_in_range (m : MultinomialMixture) (batch : list Z) : bool :=
  forallb (in_range (K m)) batch.

Definition dataset_in_range (m : MultinomialMixture) (ds : list (list Z)) : bool :=
  forallb (labels_in_range m) ds.

(** The batch does not consist of one example alone. *)
Definition not_single (batch : list Z) : bool := negb (length batch =? 1)%nat.

Definition no_single_example (ds : list (list Z)) : bool := forallb not_single ds.

(** The four accumulator updates when the squeezed labels are a vector. *)
Definition accumulate_rows (dev : device) (m : MultinomialMixture) (a : Accumulator)
           (labels : list Z) (post : mat) : result Accumulator :=
  en <- scatter_add_rows dev (emission_numerator a) labels post ;;
  Ok {| prior_numerator := update_prior_num m a post;
        prior_denominator := update_prior_den a post;
        emission_numerator := en;
        emission_denominator := update_emission_den m a post |}.

(** The posterior row of one example with label [l]. *)
Definition responsibility (st : Variables) (l : Z) : vec :=
  let n := vmul (nth (Z.to_nat l) (emission st) []) (prior st) in
  map (fun x => x / reduce_sum n) n.

(** What one example with label [l] and posterior row [p] adds to the
    accumulator. *)
Definition add_example (a : Accumulator) (l : Z) (p : vec) : Accumulator :=
  {| prior_numerator := vadd (prior_numerator a) p;
     prior_denominator := prior_denominator a + reduce_sum p;
     emission_numerator := add_row (emission_numerator a) (Z.to_nat l) p;
     emission_denominator := vadd (emission_denominator a) p |}.

(** Every entry strictly positive; every row of length [n]. *)
Definition all_pos (v : vec) : Prop := Forall (fun x => 0 < x) v.

Definition rows_of_length (n : nat) (a : mat) : Prop :=
  Forall (fun r => length r = n) a.

(** The accumulator after the examples with labels [labels], under the
    parameters of [st]. *)
Definition accumulate_examples (st : Variables) (labels : list Z) (a : Accumulator)
  : Accumulator :=
  fold_left (fun a l => add_example a l (responsibility st l)) labels a.

(** Each denominator is the sum of its numerator over the normalised axis. *)
Definition balanced (m : MultinomialMixture) (a : Accumulator) : Prop :=
  reduce_sum (prior_numerator a) = prior_denominator a
  /\ forall c, (c < C m)%nat ->
       reduce_sum (column (emission_numerator a) c) = nth c (emission_denominator a) 0.

Definition positive_accumulator (a : Accumulator) : Prop :=
  all_pos (prior_numerator a) /\ 0 < prior_denominator a
  /\ Forall all_pos (emission_numerator a) /\ all_pos (emission_denominator a).

(** The invariant of the session's Variables. *)
Definition invariant (m : MultinomialMixture) (st : Variables) : Prop :=
  valid_parameters m st = true
  /\ shaped_accumulator m (stats st) = true
  /\ positive_accumulator (stats st)
  /\ balanced m (stats st).

(** The states of the session that a run of [train] on in-range batches can
    go through: the initializer, then training steps, likelihood resets and
    end-of-epoch updates in any number and order. *)
Inductive reachable (ln : Qc -> Qc) (dev : device) (m : MultinomialMixture)
  : Variables -> Prop :=
| reach_init (pr : nat -> Qc) :
    valid_parameters m (global_variables_initializer m pr) = true ->
    reachable ln dev m (global_variables_initializer m pr)
| reach_batch (st st' : Variables) (batch : list Z) (l : Qc) :
    reachable ln dev m st ->
    labels_in_range m batch = true ->
    run_training_step ln dev m st batch = Ok (st', l) ->
    reachable ln dev m st'
| reach_likelihood (st : Variables) (l : Qc) :
    reachable ln dev m st ->
    reachable ln dev m (assign_likelihood st l)
| reach_finalize (st : Variables) :
    reachable ln dev m st ->
    reachable ln dev m (m_step_finalize st).

(** [i] is the index of the largest entry of [row], the lowest such index. *)
Definition lowest_argmax (row : vec) (i : nat) : Prop :=
  (i < length row)%nat
  /\ (forall j, (j < length row)%nat -> nth j row 0 <= nth i row 0)
  /\ (forall j, (j < i)%nat -> nth j row 0 < nth i row 0).

(** [numerator[u, :]] for an example with label [l]. *)
Definition numerator_row (st : Variables) (l : Z) : vec :=
  vmul (nth (Z.to_nat l) (emission st) []) (prior st).

(** [states] holds, for each label of [labels] in order, the hidden state that
    is the lowest arg-max of the label's numerator row. *)
Definition states_of (st : Variables) (labels : list Z) (states : list nat) : Prop :=
  Forall2 (fun l i => lowest_argmax (numerator_row st l) i) labels states.

(** ** Concrete inputs *)

Definition half : Qc := Q2Qc (1 # 2).

(** One hidden state, one symbol; every random draw is 1/2. *)
Definition model_1_1 : MultinomialMixture :=
  {| C := 1; K := 1; smoothing := Q2Qc (1 # 10000000);
     emission_init := initial_emission 1 1 (fun _ _ => half) |}.

(** Two hidden states, two symbols; draw [i] of the emission columns has
    components [(1 + i + 2 v) / 7], the draw of the prior [(1 + c) / 5]. *)
Definition draw_2_2 (i v : nat) : Qc := Q2Qc (Z.of_nat (1 + i + 2 * v) # 7).
Definition prior_draw_2 (c : nat) : Qc := Q2Qc (Z.of_nat (1 + c) # 5).

Definition model_2_2 : MultinomialMixture :=
  {| C := 2; K := 2; smoothing := Q2Qc (1 # 10000000);
     emission_init := initial_emission 2 2 draw_2_2 |}.

(** The session of [model_2_2] after the initializer. *)
Definition state_2_2 : Variables := global_variables_initializer model_2_2 prior_draw_2.

(** A rational function standing for the logarithm when the model is run on
    a concrete input. *)
Definition rational_log (x : Qc) : Qc := x - 1.

(** ** The likelihood of one example *)

(** What an example with label [l] adds to the likelihood Variable:
    [sum_c posterior[u, c] * log(numerator[u, c])]. *)
Definition example_likelihood (ln : Qc -> Qc) (st : Variables) (l : Z) : Qc :=
  reduce_sum (vmul (responsibility st l) (map ln (numerator_row st l))).

(** The draws that [__init__] and the initializer use are strictly positive. *)
Definition positive_draws (c k : nat) (draw : nat -> nat -> Qc) (pr : nat -> Qc) : bool :=
  forallb (fun i => forallb (fun v => Qc_gtb (draw i v) 0) (seq 0 k)) (seq 0 c)
  && forallb (fun i => Qc_gtb (pr i) 0) (seq 0 c).

(** The invariant the variables of [train] keep at the test of the outer loop:
    nothing printed yet, one line printed, or [delta] is the difference of the
    likelihoods of the last two lines. *)
Definition loop_invariant (old delta : ext) (out : list (Z * Qc)) : Prop :=
  (out = [] /\ old = NegInf /\ delta = PosInf)
  \/ (exists k l, out = [(k, l)] /\ old = Fin l /\ delta = PosInf)
  \/ (exists pre k1 l1 k2 l2,
        out = pre ++ [(k1, l1); (k2, l2)] /\ old = Fin l2 /\ delta = Fin (l2 - l1)).

(** Prior and emission are probability distributions: the prior sums to 1 and
    so does every column of the emission matrix. *)
Definition distributions (m : MultinomialMixture) (st : Variables) : Prop :=
  reduce_sum (prior st) = 1
  /\ forall c, (c < C m)%nat -> reduce_sum (column (emission st) c) = 1.

(** ** Model selection: [model_selection/K_Fold.py] *)

Module KFold.

(** What [process_results] reads of a [config_results.json]: the two scores
    and the rest of the dictionary. *)
Record config_dict (A : Type) : Type := {
  avg_VL_score : Qc;
  std_VL_score : Qc;
  others : A
}.

Arguments avg_VL_score {A} c.
Arguments std_VL_score {A} c.
Arguments others {A} c.

(** The local variables of [process_results]; [best_i] and [best_config] are
    unbound ([None]) until a configuration has been taken. *)
Record selection (A : Type) : Type := {
  best_avg_vl : Qc;
  best_std_vl : Qc;
  best_i : option nat;
  best_config : option (config_dict A)
}.

Arguments best_avg_vl {A} s.
Arguments best_std_vl {A} s.
Arguments best_i {A} s.
Arguments best_config {A} s.

Definition Qc_eqb (x y : Qc) : bool :=
  match (x ?= y) with Eq => true | _ => false end.

Section ProcessResults.

Variable A : Type.

(** The file system as [process_results] sees it: [read i] is the dictionary
    loaded from the results file of configuration [i], [None] when opening,
    parsing or looking up a score raises. *)
Variable read : nat -> option (config_dict A).

(** One pass of the loop body, for configuration [i]. *)
Definition visit (s : selection A) (i : nat) : selection A :=
  match read i with
  | None => s                                  (* except Exception: print(e) *)
  | Some d =>
      if Qc_gtb (avg_VL_score d) (best_avg_vl s)
         || (Qc_eqb (best_avg_vl s) (avg_VL_score d)
             && Qc_gtb (best_std_vl s) (std_VL_score d))
      then {| best_avg_vl := avg_VL_score d;
              best_std_vl := best_std_vl s;
              best_i := Some i;
              best_config := Some d |}
      else s
  end.

Definition initial_selection : selection A :=
  {| best_avg_vl := 0;
     best_std_vl := Q2Qc (100 # 1);
     best_i := None;
     best_config := None |}.

(** [process_results(KFOLD_FOLDER, no_configurations)] *)
Definition process_results (no_configurations : nat) : result (config_dict A) :=
  let s := fold_left visit (seq 1 no_configurations) initial_selection in
  match best_i s, best_config s with
  | Some _, Some d => Ok d
  | _, _ => Err UnboundLocalError              (* print(..., best_i, ...) *)
  end.

(** A configuration that the loop can take from the initial values. *)
Definition qualifies (d : config_dict A) : Prop :=
  0 < avg_VL_score d \/ (avg_VL_score d = 0 /\ std_VL_score d < Q2Qc (100 # 1)).

(** What holds of the local variables after the configurations [1 .. n]. *)
Definition selected (n : nat) (s : selection A) : Prop :=
  best_std_vl s = Q2Qc (100 # 1)
  /\ 0 <= best_avg_vl s
  /\ (forall j d, (1 <= j <= n)%nat -> read j = Some d ->
                  avg_VL_score d <= best_avg_vl s)
  /\ match best_i s, best_config s with
     | Some i, Some d =>
         (1 <= i <= n)%nat /\ read i = Some d
         /\ best_avg_vl s = avg_VL_score d /\ qualifies d
     | None, None =>
         best_avg_vl s = 0
         /\ forall j d, (1 <= j <= n)%nat -> read j = Some d -> ~ qualifies d
     | _, _ => False
     end.

End ProcessResults.

End KFold.

(** Results files for the witnesses: configurations 1 and 2 have the same
    average 4/5, with standard deviations 1/100 and 1/2; configuration 3 has
    no readable file. *)
Definition two_equal_configs (i : nat) : option (KFold.config_dict nat) :=
  match i with
  | 1%nat => Some {| KFold.avg_VL_score := Q2Qc (4 # 5);
                     KFold.std_VL_score := Q2Qc (1 # 100);
                     KFold.others := 1%nat |}
  | 2%nat => Some {| KFold.avg_VL_score := Q2Qc (4 # 5);
                     KFold.std_VL_score := Q2Qc (1 # 2);
                     KFold.others := 2%nat |}
  | _ => None
  end.

(** ** The base layer of [Main.py] *)

(** [tf.data.Dataset.from_tensor_slices(X).batch(batch_size)]: consecutive
    groups of [batch_size] elements, the last one holding what is left. *)
Fixpoint batches_of (fuel batch_size : nat) (X : list Z) : list (list Z) :=
  match fuel, X with
  | S fuel', _ :: _ => firstn batch_size X :: batches_of fuel' batch_size (skipn batch_size X)
  | _, _ => []
  end.

(** [batch] refuses a batch size that is not positive. *)
Definition dataset_batch (batch_size : nat) (X : list Z) : result (list (list Z)) :=
  match batch_size with
  | O => Err InvalidArgumentError
  | S _ => Ok (batches_of (length X) batch_size X)
  end.

(** The block [LAYER 0] of the script: the dataset is batched, the model
    built, trained with the default threshold and epoch budget, and the
    hidden states of all vertices inferred from the same batches.  The script
    sets [c = 40] and [batch_size = 2000]; [k] and [X] come from the task's
    data. *)
Definition base_layer (ln : Qc -> Qc) (dev : device) (c k : Z) (batch_size : nat)
           (X : list Z) (draw : nat -> nat -> Qc) (pr : nat -> Qc)
  : option (result (Variables * predictions)) :=
  match dataset_batch batch_size X with
  | Err e => Some (Err e)
  | Ok batch_dataset =>
      match __init__ c k draw with
      | Err e => Some (Err e)
      | Ok mm =>
          match train ln dev mm batch_dataset 0 10 pr with
          | None => None
          | Some (Err e) => Some (Err e)
          | Some (Ok e) => Some (perform_inference dev mm (final e) batch_dataset)
          end
      end
  end.

(** * Proofs *)

(** ** Order on [Qc] *)

Lemma Qc_gtb_lt (x y : Qc) : Qc_gtb x y = true <-> y < x.
Proof.
  unfold Qc_gtb. rewrite (Qcgt_alt x y).
  destruct (x ?= y); split; congruence.
Qed.

Lemma Qc_gtb_irrefl (x : Qc) : Qc_gtb x x = false.
Proof.
  destruct (Qc_gtb x x) eqn:E; [|reflexivity].
  apply Qc_gtb_lt in E. exfalso. exact (Qclt_not_eq _ _ E eq_refl).
Qed.

Lemma Qc_add_pos (x y : Qc) : 0 < x -> 0 <= y -> 0 < x + y.
Proof.
  intros Hx Hy.
  apply Qclt_le_trans with (y := x + 0).
  - now rewrite Qcplus_0_r.
  - apply Qcplus_le_compat; [apply Qcle_refl | exact Hy].
Qed.

Lemma Qc_add_nonneg (x y : Qc) : 0 <= x -> 0 <= y -> 0 <= x + y.
Proof.
  intros Hx Hy. rewrite <- (Qcplus_0_r 0) at 1.
  now apply Qcplus_le_compat.
Qed.

Lemma Qc_mul_pos (x y : Qc) : 0 < x -> 0 < y -> 0 < x * y.
Proof.
  intros Hx Hy. rewrite <- (Qcmult_0_l y).
  now apply Qcmult_lt_compat_r.
Qed.

Lemma Qc_inv_pos (x : Qc) : 0 < x -> 0 < / x.
Proof.
  intros Hx. unfold Qclt, Qcinv, Q2Qc in *. simpl in *.
  setoid_rewrite Qred_correct. now apply Qinv_lt_0_compat.
Qed.

Lemma Qc_div_pos (x y : Qc) : 0 < x -> 0 < y -> 0 < x / y.
Proof.
  intros Hx Hy. unfold Qcdiv. apply Qc_mul_pos; [exact Hx | now apply Qc_inv_pos].
Qed.

Lemma Qc_pos_neq (x : Qc) : 0 < x -> x <> 0.
Proof. intros Hx E. subst x. exact (Qclt_not_eq _ _ Hx eq_refl). Qed.

Lemma Qc_of_nat_S (n : nat) : Qc_of_nat (S n) = Qc_of_nat n + 1.
Proof.
  apply Qc_is_canon. unfold Qc_of_nat, Qcplus, Q2Qc. cbn [this].
  repeat setoid_rewrite Qred_correct. rewrite Nat2Z.inj_succ. unfold Z.succ.
  rewrite inject_Z_plus. reflexivity.
Qed.

Lemma Qc_of_nat_pos (n : nat) : (0 < n)%nat -> 0 < Qc_of_nat n.
Proof.
  intros Hn. unfold Qclt, Qc_of_nat, Q2Qc. cbn [this].
  setoid_rewrite Qred_correct. unfold Qlt. simpl. lia.
Qed.

(** ** Vectors *)

Lemma positive_vec_iff (v : vec) : positive_vec v = true <-> all_pos v.
Proof.
  unfold positive_vec, all_pos. rewrite forallb_forall, Forall_forall.
  split; intros H x Hx; apply Qc_gtb_lt; auto.
Qed.

Lemma zip_with_length {A B D : Type} (f : A -> B -> D) (a : list A) (b : list B) :
  length a = length b -> length (zip_with f a b) = length a.
Proof.
  revert b. induction a as [|x a IH]; intros [|y b] H; simpl in *; try congruence.
  f_equal. apply IH. congruence.
Qed.

Lemma vadd_assoc (a p q : vec) : vadd a (vadd p q) = vadd (vadd a p) q.
Proof.
  unfold vadd. revert p q.
  induction a as [|x a IH]; intros [|y p] [|z q]; simpl; try reflexivity.
  rewrite IH. f_equal. ring.
Qed.

Lemma vadd_swap (a p q : vec) : vadd (vadd a p) q = vadd (vadd a q) p.
Proof.
  unfold vadd. revert p q.
  induction a as [|x a IH]; intros [|y p] [|z q]; simpl; try reflexivity.
  rewrite IH. f_equal. ring.
Qed.

Lemma vadd_zero_r (a : vec) (n : nat) : length a = n -> vadd a (fill n 0) = a.
Proof.
  unfold vadd, fill. revert n.
  induction a as [|x a IH]; intros [|n] H; simpl in *; try congruence.
  rewrite IH by congruence. f_equal. ring.
Qed.

Lemma reduce_sum_vadd (a b : vec) :
  length a = length b -> reduce_sum (vadd a b) = reduce_sum a + reduce_sum b.
Proof.
  unfold vadd, reduce_sum. revert b.
  induction a as [|x a IH]; intros [|y b] H; simpl in *; try congruence.
  - ring.
  - rewrite IH by congruence. ring.
Qed.

Lemma reduce_sum_scale (v : vec) (d : Qc) :
  reduce_sum (map (fun x => x / d) v) = reduce_sum v / d.
Proof.
  induction v as [|x v IH]; unfold reduce_sum in *; simpl.
  - unfold Qcdiv. ring.
  - rewrite IH. unfold Qcdiv. ring.
Qed.

Lemma reduce_sum_fill (n : nat) (x : Qc) : reduce_sum (fill n x) = x * Qc_of_nat n.
Proof.
  induction n as [|n IH]; unfold reduce_sum, fill in *; simpl.
  - change (Qc_of_nat 0) with 0. ring.
  - rewrite IH, Qc_of_nat_S. ring.
Qed.

Lemma nth_vadd (a b : vec) (c : nat) :
  length a = length b -> nth c (vadd a b) 0 = nth c a 0 + nth c b 0.
Proof.
  unfold vadd. revert b c.
  induction a as [|x a IH]; intros [|y b] c H; simpl in *; try congruence.
  - destruct c; ring.
  - destruct c; [reflexivity|]. apply IH. congruence.
Qed.

Lemma nth_fill (n c : nat) (x : Qc) : (c < n)%nat -> nth c (fill n x) 0 = x.
Proof.
  intros H. unfold fill. apply nth_repeat_lt. exact H.
Qed.

Lemma reduce_sum_nonneg (v : vec) : Forall (fun x => 0 <= x) v -> 0 <= reduce_sum v.
Proof.
  induction 1 as [|x v Hx Hv IH]; unfold reduce_sum in *; simpl.
  - apply Qcle_refl.
  - now apply Qc_add_nonneg.
Qed.

Lemma all_pos_nonneg (v : vec) : all_pos v -> Forall (fun x => 0 <= x) v.
Proof.
  unfold all_pos. intros H. eapply Forall_impl; [|exact H].
  intros x Hx. now apply Qclt_le_weak.
Qed.

Lemma reduce_sum_pos (v : vec) : v <> [] -> all_pos v -> 0 < reduce_sum v.
Proof.
  intros Hne Hv. destruct v as [|x v]; [congruence|].
  inversion Hv; subst. unfold reduce_sum. simpl.
  apply Qc_add_pos; [assumption|].
  apply reduce_sum_nonneg. now apply all_pos_nonneg.
Qed.

Lemma all_pos_vadd (a b : vec) : all_pos a -> all_pos b -> all_pos (vadd a b).
Proof.
  unfold all_pos. intros Ha. revert b.
  induction Ha as [|x a Hx Ha IH]; intros b Hb; [constructor|].
  destruct Hb as [|y b Hy Hb]; [constructor|].
  unfold vadd in *. simpl. constructor.
  - apply Qc_add_pos; [assumption | now apply Qclt_le_weak].
  - now apply IH.
Qed.

Lemma all_pos_vmul (a b : vec) : all_pos a -> all_pos b -> all_pos (vmul a b).
Proof.
  unfold all_pos. intros Ha. revert b.
  induction Ha as [|x a Hx Ha IH]; intros b Hb; [constructor|].
  destruct Hb as [|y b Hy Hb]; [constructor|].
  unfold vmul in *. simpl. constructor.
  - now apply Qc_mul_pos.
  - now apply IH.
Qed.

Lemma all_pos_vdiv (a b : vec) : all_pos a -> all_pos b -> all_pos (vdiv a b).
Proof.
  unfold all_pos. intros Ha. revert b.
  induction Ha as [|x a Hx Ha IH]; intros b Hb; [constructor|].
  destruct Hb as [|y b Hy Hb]; [constructor|].
  unfold vdiv in *. simpl. constructor.
  - now apply Qc_div_pos.
  - now apply IH.
Qed.

Lemma all_pos_scale (v : vec) (d : Qc) :
  all_pos v -> 0 < d -> all_pos (map (fun x => x / d) v).
Proof.
  unfold all_pos. intros Hv Hd. apply Forall_map.
  eapply Forall_impl; [|exact Hv]. intros x Hx. now apply Qc_div_pos.
Qed.

(** ** Matrices *)

Lemma shaped_iff (rows cols : nat) (a : mat) :
  shaped rows cols a = true <-> length a = rows /\ rows_of_length cols a.
Proof.
  unfold shaped, rows_of_length.
  rewrite andb_true_iff, Nat.eqb_eq, forallb_forall, Forall_forall.
  split; intros [H1 H2]; split; auto; intros r Hr; apply Nat.eqb_eq; auto.
Qed.

Lemma forallb_positive_iff (a : mat) :
  forallb positive_vec a = true <-> Forall all_pos a.
Proof.
  rewrite forallb_forall, Forall_forall.
  split; intros H r Hr; apply positive_vec_iff; auto.
Qed.

Lemma rows_of_length_nth (n : nat) (a : mat) (i : nat) :
  rows_of_length n a -> (i < length a)%nat -> length (nth i a []) = n.
Proof.
  intros Ha Hi. unfold rows_of_length in Ha. rewrite Forall_forall in Ha.
  apply Ha. now apply nth_In.
Qed.

Lemma add_row_length (a : mat) (i : nat) (u : vec) :
  length (add_row a i u) = length a.
Proof.
  revert i. induction a as [|r a IH]; intros [|i]; simpl; auto.
Qed.

Lemma add_row_rows_of_length (n : nat) (a : mat) (i : nat) (u : vec) :
  rows_of_length n a -> length u = n -> rows_of_length n (add_row a i u).
Proof.
  unfold rows_of_length. intros Ha Hu. revert i.
  induction Ha as [|r a Hr Ha IH]; intros [|i]; simpl; constructor; auto.
  unfold vadd. rewrite zip_with_length; congruence.
Qed.

Lemma add_row_all_pos (a : mat) (i : nat) (u : vec) :
  Forall all_pos a -> all_pos u -> Forall all_pos (add_row a i u).
Proof.
  intros Ha Hu. revert i.
  induction Ha as [|r a Hr Ha IH]; intros [|i]; simpl; constructor; auto.
  now apply all_pos_vadd.
Qed.

Lemma add_row_swap (a : mat) (i j : nat) (p q : vec) :
  add_row (add_row a i p) j q = add_row (add_row a j q) i p.
Proof.
  revert i j. induction a as [|r a IH]; intros [|i] [|j]; simpl; try reflexivity.
  - now rewrite vadd_swap.
  - now rewrite IH.
Qed.

Lemma column_add_row (n : nat) (a : mat) (i c : nat) (u : vec) :
  rows_of_length n a -> length u = n -> (i < length a)%nat ->
  reduce_sum (column (add_row a i u) c) = reduce_sum (column a c) + nth c u 0.
Proof.
  unfold rows_of_length, column, reduce_sum. intros Ha Hu. revert i.
  induction Ha as [|r a Hr Ha IH]; intros i Hi; simpl in *; [lia|].
  destruct i as [|i]; simpl.
  - rewrite nth_vadd by congruence. ring.
  - rewrite IH by lia. ring.
Qed.

Lemma zip_with_map_same {A B D E : Type} (h : B -> D -> E) (f : A -> B) (g : A -> D)
      (l : list A) :
  zip_with h (map f l) (map g l) = map (fun x => h (f x) (g x)) l.
Proof.
  induction l as [|x l IH]; simpl; [reflexivity|]. now rewrite IH.
Qed.

Lemma mapM_Ok {A B : Type} (f : A -> result B) (g : A -> B) (l : list A) :
  (forall x, In x l -> f x = Ok (g x)) -> mapM f l = Ok (map g l).
Proof.
  induction l as [|x l IH]; intros H; simpl; [reflexivity|].
  rewrite (H x) by now left. simpl.
  rewrite IH by (intros y Hy; apply H; now right). reflexivity.
Qed.

Lemma in_range_iff (n : nat) (i : Z) :
  in_range n i = true <-> (0 <= i < Z.of_nat n /\ i < 2147483648)%Z.
Proof.
  unfold in_range. rewrite !andb_true_iff, Z.leb_le, !Z.ltb_lt. tauto.
Qed.

Lemma in_range_lt (n : nat) (i : Z) :
  in_range n i = true -> (Z.to_nat i < n)%nat.
Proof.
  rewrite in_range_iff. lia.
Qed.

(** ** The conversion to [int32] *)

Lemma int32_bounds (z : Z) : (-2147483648 <= int32 z < 2147483648)%Z.
Proof.
  unfold int32.
  pose proof (Z.mod_pos_bound (z + 2147483648) 4294967296 eq_refl). lia.
Qed.

Lemma int32_small (z : Z) :
  (-2147483648 <= z < 2147483648)%Z -> int32 z = z.
Proof.
  intros H. unfold int32. rewrite Z.mod_small by lia. lia.
Qed.

Lemma int32_idempotent (z : Z) : int32 (int32 z) = int32 z.
Proof.
  apply int32_small, int32_bounds.
Qed.

Lemma in_range_int32 (n : nat) (i : Z) : in_range n i = true -> int32 i = i.
Proof.
  rewrite in_range_iff. intros H. apply int32_small. lia.
Qed.

Lemma feed_idempotent (batch : list Z) : feed (feed batch) = feed batch.
Proof.
  unfold feed. rewrite map_map. apply map_ext. intros z. apply int32_idempotent.
Qed.

Lemma feed_length (batch : list Z) : length (feed batch) = length batch.
Proof.
  unfold feed. apply length_map.
Qed.

(** ** [gather_nd] on a tensor that has entries *)

Lemma gather_nd_rows (dev : device) (cols : nat) (params : mat) (indices : list Z) :
  (0 < cols)%nat -> (0 < length params)%nat ->
  gather_nd dev cols params indices
  = mapM (fun i =>
            if in_range (length params) i then Ok (nth (Z.to_nat i) params [])
            else match dev with
                 | CPU => Err InvalidArgumentError
                 | GPU => Ok (fill cols 0)
                 end) indices.
Proof.
  intros Hc Hp. unfold gather_nd.
  destruct (length params) as [|n] eqn:E; [lia|].
  destruct cols as [|c]; [lia|]. reflexivity.
Qed.

Lemma gather_nd_nil (dev : device) (cols : nat) (params : mat) :
  gather_nd dev cols params [] = Ok [].
Proof.
  unfold gather_nd. simpl. rewrite andb_false_r. reflexivity.
Qed.

(** ** The E-step in closed form *)

Lemma valid_parameters_iff (m : MultinomialMixture) (st : Variables) :
  valid_parameters m st = true <->
  length (prior st) = C m /\ length (emission st) = K m
  /\ rows_of_length (C m) (emission st)
  /\ all_pos (prior st) /\ Forall all_pos (emission st).
Proof.
  unfold valid_parameters.
  rewrite !andb_true_iff, Nat.eqb_eq, shaped_iff, positive_vec_iff,
    forallb_positive_iff.
  tauto.
Qed.

Lemma labels_in_range_iff (m : MultinomialMixture) (batch : list Z) :
  labels_in_range m batch = true <-> Forall (fun l => in_range (K m) l = true) batch.
Proof.
  unfold labels_in_range. now rewrite forallb_forall, Forall_forall.
Qed.

(** Labels in range are their own [int32] values. *)
Lemma feed_in_range (m : MultinomialMixture) (batch : list Z) :
  labels_in_range m batch = true -> feed batch = batch.
Proof.
  intros Hb. apply labels_in_range_iff in Hb. unfold feed.
  induction Hb as [|l batch Hl _ IH]; simpl; [reflexivity|].
  now rewrite IH, (in_range_int32 _ _ Hl).
Qed.

Section EStep.

Variable dev : device.
Variable m : MultinomialMixture.
Variable st : Variables.
Hypothesis Hvalid : valid_parameters m st = true.

Lemma gather_in_range (batch : list Z) :
  (0 < C m)%nat ->
  labels_in_range m batch = true ->
  emission_for_labels dev m st batch
  = Ok (map (fun l => nth (Z.to_nat l) (emission st) []) batch).
Proof.
  intros HC0 Hb. apply labels_in_range_iff in Hb. rewrite Forall_forall in Hb.
  apply valid_parameters_iff in Hvalid. destruct Hvalid as (_ & HK & _).
  unfold emission_for_labels.
  destruct batch as [|l0 batch]; [apply gather_nd_nil|].
  rewrite gather_nd_rows.
  - apply mapM_Ok.
    intros l Hl. rewrite HK, (Hb l Hl). reflexivity.
  - assumption.
  - rewrite HK. pose proof (in_range_lt _ _ (Hb l0 (or_introl eq_refl))). lia.
Qed.

Lemma e_step_closed (batch : list Z) :
  (0 < C m)%nat ->
  labels_in_range m batch = true ->
  e_step dev m st batch
  = Ok (map (numerator_row st) batch, map (responsibility st) batch).
Proof.
  intros HC0 Hb. unfold e_step. rewrite (gather_in_range batch HC0 Hb). simpl.
  unfold numerator, denominator, posterior_estimate.
  rewrite zip_with_map_same, !map_map. reflexivity.
Qed.

Lemma numerator_row_length (l : Z) :
  in_range (K m) l = true -> length (numerator_row st l) = C m.
Proof.
  intros Hl. apply in_range_lt in Hl.
  apply valid_parameters_iff in Hvalid.
  destruct Hvalid as (HC & HK & Hrows & _).
  unfold numerator_row, vmul. rewrite zip_with_length.
  - apply rows_of_length_nth; [assumption | lia].
  - rewrite HC. apply rows_of_length_nth; [assumption | lia].
Qed.

Lemma numerator_row_pos (l : Z) :
  in_range (K m) l = true -> all_pos (numerator_row st l).
Proof.
  intros Hl. apply in_range_lt in Hl.
  apply valid_parameters_iff in Hvalid.
  destruct Hvalid as (HC & HK & Hrows & Hp & He).
  unfold numerator_row. apply all_pos_vmul; [|assumption].
  rewrite Forall_forall in He. apply He. apply nth_In. lia.
Qed.

Lemma numerator_row_sum_pos (l : Z) :
  (0 < C m)%nat -> in_range (K m) l = true -> 0 < reduce_sum (numerator_row st l).
Proof.
  intros HC Hl. apply reduce_sum_pos.
  - intros E. apply (f_equal (@length Qc)) in E.
    rewrite numerator_row_length in E by assumption. simpl in E. lia.
  - now apply numerator_row_pos.
Qed.

Lemma responsibility_length (l : Z) :
  in_range (K m) l = true -> length (responsibility st l) = C m.
Proof.
  intros Hl. unfold responsibility. rewrite length_map.
  now apply numerator_row_length.
Qed.

Lemma responsibility_pos (l : Z) :
  (0 < C m)%nat -> in_range (K m) l = true -> all_pos (responsibility st l).
Proof.
  intros HC Hl. unfold responsibility. apply all_pos_scale.
  - now apply numerator_row_pos.
  - now apply numerator_row_sum_pos.
Qed.

Lemma responsibility_sum (l : Z) :
  (0 < C m)%nat -> in_range (K m) l = true -> reduce_sum (responsibility st l) = 1.
Proof.
  intros HC Hl. unfold responsibility. rewrite reduce_sum_scale.
  fold (numerator_row st l). unfold Qcdiv. apply Qcmult_inv_r.
  apply Qc_pos_neq. now apply numerator_row_sum_pos.
Qed.

End EStep.

Lemma nth_vmul (a b : vec) (c : nat) : nth c (vmul a b) 0 = nth c a 0 * nth c b 0.
Proof.
  unfold vmul. revert b c.
  induction a as [|x a IH]; intros b c.
  - simpl. destruct c; ring.
  - destruct b as [|y b]; simpl.
    + destruct c; ring.
    + destruct c; [reflexivity | apply IH].
Qed.

Lemma nth_scale (v : vec) (d : Qc) (c : nat) :
  nth c (map (fun x => x / d) v) 0 = nth c v 0 / d.
Proof.
  replace 0 with (0 / d) at 1 by (unfold Qcdiv; ring).
  apply (map_nth (fun x => x / d)).
Qed.

Lemma nth_map_lt {A B : Type} (f : A -> B) (l : list A) (u : nat) (da : A) (db : B) :
  (u < length l)%nat -> nth u (map f l) db = f (nth u l da).
Proof.
  intros Hu. rewrite (nth_indep _ db (f da)) by now rewrite length_map.
  apply map_nth.
Qed.

(** C3.  For a batch of in-range labels and strictly positive parameters of the
    model's shapes (at least one hidden state), the E-step returns a numerator
    and a posterior with one row per example, where
    [numerator[u,c] = emission[label_u,c] * prior[c]],
    [posterior[u,c] = numerator[u,c] / sum_c numerator[u,c]],
    and every row of the posterior sums to 1. *)
Theorem posterior_rows_sum_to_one (dev : device) (m : MultinomialMixture)
        (st : Variables) (batch : list Z) :
  (0 < C m)%nat ->
  valid_parameters m st = true ->
  labels_in_range m batch = true ->
  exists num post,
    e_step dev m st batch = Ok (num, post)
    /\ length post = length batch
    /\ forall u, (u < length batch)%nat ->
         (forall c, nth c (nth u num []) 0
                    = nth c (nth (Z.to_nat (nth u batch 0%Z)) (emission st) []) 0
                      * nth c (prior st) 0)
         /\ (forall c, nth c (nth u post []) 0
                       = nth c (nth u num []) 0 / reduce_sum (nth u num []))
         /\ reduce_sum (nth u post []) = 1.
Proof.
  intros HC Hv Hb.
  exists (map (numerator_row st) batch), (map (responsibility st) batch).
  split; [now apply e_step_closed|].
  split; [now rewrite length_map|].
  intros u Hu.
  rewrite (nth_map_lt (numerator_row st) batch u 0%Z) by assumption.
  rewrite (nth_map_lt (responsibility st) batch u 0%Z) by assumption.
  assert (Hl : in_range (K m) (nth u batch 0%Z) = true).
  { apply labels_in_range_iff in Hb. rewrite Forall_forall in Hb.
    apply Hb. now apply nth_In. }
  repeat split.
  - intros c. unfold numerator_row. apply nth_vmul.
  - intros c. unfold responsibility. fold (numerator_row st (nth u batch 0%Z)).
    apply nth_scale.
  - now apply (responsibility_sum m).
Qed.

(** ** The accumulation of a batch, example by example *)

Lemma shaped_accumulator_iff (m : MultinomialMixture) (a : Accumulator) :
  shaped_accumulator m a = true <->
  length (prior_numerator a) = C m
  /\ length (emission_numerator a) = K m
  /\ rows_of_length (C m) (emission_numerator a)
  /\ length (emission_denominator a) = C m.
Proof.
  unfold shaped_accumulator.
  rewrite !andb_true_iff, !Nat.eqb_eq, shaped_iff. tauto.
Qed.

Lemma add_example_shaped (m : MultinomialMixture) (a : Accumulator) (l : Z) (p : vec) :
  shaped_accumulator m a = true -> length p = C m ->
  shaped_accumulator m (add_example a l p) = true.
Proof.
  rewrite !shaped_accumulator_iff. intros (H1 & H2 & H3 & H4) Hp. simpl.
  unfold vadd. rewrite !zip_with_length, add_row_length by congruence.
  repeat split; auto. now apply add_row_rows_of_length.
Qed.

Lemma add_example_swap (a : Accumulator) (l1 l2 : Z) (p1 p2 : vec) :
  add_example (add_example a l1 p1) l2 p2 = add_example (add_example a l2 p2) l1 p1.
Proof.
  unfold add_example. simpl. f_equal.
  - apply vadd_swap.
  - ring.
  - apply add_row_swap.
  - apply vadd_swap.
Qed.

Section MStep.

Variable dev : device.
Variable m : MultinomialMixture.

Lemma squeeze_vector (labels : list Z) :
  not_single labels = true -> squeeze labels = Vector labels.
Proof.
  destruct labels as [|l [|l' labels]]; simpl; try reflexivity. discriminate.
Qed.

(** A batch of one example: the scatter raises. *)
Lemma m_step_accumulate_single (a : Accumulator) (l : Z) (post : mat) :
  m_step_accumulate dev m a [l] post = Err InvalidArgumentError.
Proof. reflexivity. Qed.

Lemma m_step_accumulate_vector (a : Accumulator) (batch : list Z) (post : mat) :
  not_single batch = true ->
  m_step_accumulate dev m a batch post = accumulate_rows dev m a batch post.
Proof.
  intros Hb. unfold m_step_accumulate, update_emission_num, accumulate_rows.
  rewrite (squeeze_vector batch Hb). reflexivity.
Qed.

Lemma accumulate_rows_nil (a : Accumulator) :
  shaped_accumulator m a = true ->
  accumulate_rows dev m a [] [] = Ok a.
Proof.
  intros Ha. apply shaped_accumulator_iff in Ha. destruct Ha as (H1 & _ & _ & H4).
  unfold accumulate_rows, update_prior_num,
    update_prior_den, update_emission_den, reduce_sum_axis0, reduce_sum_all.
  simpl. rewrite !vadd_zero_r by assumption.
  destruct a; simpl. f_equal. f_equal. unfold reduce_sum. simpl. ring.
Qed.

Lemma accumulate_rows_cons (a : Accumulator) (l : Z) (batch : list Z)
      (p : vec) (post : mat) :
  length (emission_numerator a) = K m ->
  in_range (K m) l = true ->
  accumulate_rows dev m a (l :: batch) (p :: post)
  = accumulate_rows dev m (add_example a l p) batch post.
Proof.
  intros HK Hl.
  unfold accumulate_rows, update_prior_num,
    update_prior_den, update_emission_den, reduce_sum_axis0, reduce_sum_all.
  simpl. rewrite HK, Hl.
  destruct (scatter_add_rows dev _ batch post) as [en|e]; simpl; [|reflexivity].
  f_equal. f_equal.
  - apply vadd_assoc.
  - unfold reduce_sum. simpl. ring.
  - apply vadd_assoc.
Qed.

Lemma accumulate_rows_closed (p : Z -> vec) (batch : list Z) (a : Accumulator) :
  (forall l, in_range (K m) l = true -> length (p l) = C m) ->
  shaped_accumulator m a = true ->
  labels_in_range m batch = true ->
  accumulate_rows dev m a batch (map p batch)
  = Ok (fold_left (fun a l => add_example a l (p l)) batch a).
Proof.
  intros Hp. revert a. induction batch as [|l batch IH]; intros a Ha Hb.
  - simpl. now apply accumulate_rows_nil.
  - simpl in Hb. apply andb_true_iff in Hb. destruct Hb as [Hl Hb].
    simpl. rewrite accumulate_rows_cons; [|
      apply shaped_accumulator_iff in Ha; tauto | assumption].
    apply IH; [|assumption].
    apply add_example_shaped; auto.
Qed.

Lemma m_step_accumulate_closed (p : Z -> vec) (batch : list Z) (a : Accumulator) :
  (forall l, in_range (K m) l = true -> length (p l) = C m) ->
  shaped_accumulator m a = true ->
  labels_in_range m batch = true ->
  not_single batch = true ->
  m_step_accumulate dev m a batch (map p batch)
  = Ok (fold_left (fun a l => add_example a l (p l)) batch a).
Proof.
  intros Hp Ha Hb Hs. rewrite m_step_accumulate_vector by assumption.
  now apply accumulate_rows_closed.
Qed.

End MStep.

Lemma run_training_step_closed (ln : Qc -> Qc) (dev : device) (m : MultinomialMixture)
      (st : Variables) (batch : list Z) :
  (0 < C m)%nat ->
  valid_parameters m st = true ->
  shaped_accumulator m (stats st) = true ->
  labels_in_range m batch = true ->
  not_single batch = true ->
  run_training_step ln dev m st batch
  = let l := compute_likelihood ln st (map (numerator_row st) batch)
                                (map (responsibility st) batch) in
    Ok ({| prior := prior st; emission := emission st;
           stats := accumulate_examples st batch (stats st);
           likelihood := l |}, l).
Proof.
  intros HC0 Hv Ha Hb Hs. unfold run_training_step.
  rewrite (feed_in_range m batch Hb).
  rewrite (e_step_closed dev m st Hv batch HC0 Hb). simpl.
  rewrite (m_step_accumulate_closed dev m (responsibility st) batch (stats st));
    auto.
  intros l Hl. now apply (responsibility_length m).
Qed.

(** ** A pass over the batches *)

Lemma accumulate_examples_ext (st st' : Variables) (labels : list Z) (a : Accumulator) :
  prior st' = prior st -> emission st' = emission st ->
  accumulate_examples st' labels a = accumulate_examples st labels a.
Proof.
  intros Hp He. unfold accumulate_examples. revert a.
  induction labels as [|l labels IH]; intros a; simpl; [reflexivity|].
  rewrite IH. unfold responsibility. now rewrite Hp, He.
Qed.

Lemma accumulate_examples_shaped (m : MultinomialMixture) (st : Variables)
      (labels : list Z) (a : Accumulator) :
  valid_parameters m st = true ->
  labels_in_range m labels = true ->
  shaped_accumulator m a = true ->
  shaped_accumulator m (accumulate_examples st labels a) = true.
Proof.
  intros Hv. unfold accumulate_examples. revert a.
  induction labels as [|l labels IH]; intros a Hb Ha; simpl; [assumption|].
  simpl in Hb. apply andb_true_iff in Hb. destruct Hb as [Hl Hb].
  apply IH; [assumption|].
  apply add_example_shaped; [assumption|]. now apply (responsibility_length m).
Qed.

Lemma accumulate_examples_perm (st : Variables) (l1 l2 : list Z) :
  Permutation l1 l2 ->
  forall a, accumulate_examples st l1 a = accumulate_examples st l2 a.
Proof.
  unfold accumulate_examples.
  induction 1 as [|x l1 l2 HP IH|x y l|l1 l2 l3 HP1 IH1 HP2 IH2]; intros a; simpl.
  - reflexivity.
  - apply IH.
  - now rewrite add_example_swap.
  - now rewrite IH1, IH2.
Qed.

Lemma valid_parameters_ext (m : MultinomialMixture) (st st' : Variables) :
  prior st' = prior st -> emission st' = emission st ->
  valid_parameters m st' = valid_parameters m st.
Proof. intros Hp He. unfold valid_parameters. now rewrite Hp, He. Qed.

Lemma dataset_in_range_concat (m : MultinomialMixture) (ds : list (list Z)) :
  dataset_in_range m ds = labels_in_range m (concat ds).
Proof.
  unfold dataset_in_range, labels_in_range.
  induction ds as [|b ds IH]; simpl; [reflexivity|].
  now rewrite forallb_app, IH.
Qed.

Lemma run_batches_closed (ln : Qc -> Qc) (dev : device) (m : MultinomialMixture)
      (ds : list (list Z)) (st : Variables) (lik : option Qc) :
  (0 < C m)%nat ->
  valid_parameters m st = true ->
  shaped_accumulator m (stats st) = true ->
  dataset_in_range m ds = true ->
  no_single_example ds = true ->
  exists st' lik',
    run_batches ln dev m st lik ds = Ok (st', lik')
    /\ prior st' = prior st /\ emission st' = emission st
    /\ stats st' = accumulate_examples st (concat ds) (stats st)
    /\ (ds <> [] -> lik' = Some (likelihood st'))
    /\ (ds = [] -> lik' = lik).
Proof.
  intros HC0.
  revert st lik. induction ds as [|b ds IH]; intros st lik Hv Ha Hd Hn.
  - exists st, lik. simpl. repeat split; auto. congruence.
  - simpl in Hd. apply andb_true_iff in Hd. destruct Hd as [Hb Hd].
    simpl in Hn. apply andb_true_iff in Hn. destruct Hn as [Hsb Hn].
    simpl. rewrite run_training_step_closed by assumption. simpl.
    set (l := compute_likelihood ln st _ _).
    set (st1 := {| prior := prior st; emission := emission st;
                   stats := accumulate_examples st b (stats st);
                   likelihood := l |}).
    destruct (IH st1 (Some l)) as (st' & lik' & Hrun & Hp & He & Hs & Hl & Hnil).
    + rewrite (valid_parameters_ext m st st1); auto.
    + simpl. now apply (accumulate_examples_shaped m).
    + assumption.
    + assumption.
    + exists st', lik'. rewrite Hrun. repeat split; auto.
      * rewrite Hs. rewrite (accumulate_examples_ext st st1) by reflexivity.
        simpl. unfold accumulate_examples. now rewrite fold_left_app.
      * intros _. destruct ds as [|b' ds].
        -- simpl in Hrun. injection Hrun as <- <-. reflexivity.
        -- apply Hl. discriminate.
      * discriminate.
Qed.

(** With the parameters fixed and strictly positive, and starting from the
    same accumulator of the constructor's shapes (the reset accumulator in
    particular), two datasets of in-range labels whose batches hold the same
    multiset of observations, however split into batches of two examples or
    more and in whatever order, both run to the end, leave the same
    accumulated sums, and hence the same prior and emission after the
    end-of-epoch update. *)
Lemma accumulation_independent_of_batching
      (ln : Qc -> Qc) (dev : device) (m : MultinomialMixture) (st : Variables)
      (ds1 ds2 : list (list Z)) :
  (0 < C m)%nat ->
  valid_parameters m st = true ->
  shaped_accumulator m (stats st) = true ->
  dataset_in_range m ds1 = true ->
  no_single_example ds1 = true ->
  no_single_example ds2 = true ->
  Permutation (concat ds1) (concat ds2) ->
  exists st1 lik1 st2 lik2,
    run_batches ln dev m st None ds1 = Ok (st1, lik1)
    /\ run_batches ln dev m st None ds2 = Ok (st2, lik2)
    /\ stats st1 = stats st2
    /\ prior (m_step_finalize st1) = prior (m_step_finalize st2)
    /\ emission (m_step_finalize st1) = emission (m_step_finalize st2).
Proof.
  intros HC0 Hv Ha Hd1 Hn1 Hn2 HP.
  assert (Hd2 : dataset_in_range m ds2 = true).
  { rewrite dataset_in_range_concat in *. unfold labels_in_range in *.
    rewrite forallb_forall in *. intros l Hl. apply Hd1.
    eapply Permutation_in; [apply Permutation_sym; exact HP | exact Hl]. }
  destruct (run_batches_closed ln dev m ds1 st None HC0 Hv Ha Hd1 Hn1)
    as (st1 & lik1 & Hr1 & _ & _ & Hs1 & _).
  destruct (run_batches_closed ln dev m ds2 st None HC0 Hv Ha Hd2 Hn2)
    as (st2 & lik2 & Hr2 & _ & _ & Hs2 & _).
  exists st1, lik1, st2, lik2.
  assert (Hs : stats st1 = stats st2).
  { rewrite Hs1, Hs2. now apply accumulate_examples_perm. }
  repeat split; auto; simpl; now rewrite Hs.
Qed.

(** ** The invariant of the accumulator *)

Lemma all_pos_fill (n : nat) (x : Qc) : 0 < x -> all_pos (fill n x).
Proof.
  intros Hx. unfold all_pos, fill. apply Forall_forall.
  intros y Hy. apply repeat_spec in Hy. now subst.
Qed.

Lemma all_pos_nth (v : vec) (c : nat) : all_pos v -> (c < length v)%nat -> 0 < nth c v 0.
Proof.
  unfold all_pos. rewrite Forall_forall. intros Hv Hc. apply Hv. now apply nth_In.
Qed.

Lemma nth_vdiv (a b : vec) (c : nat) :
  length a = length b -> nth c (vdiv a b) 0 = nth c a 0 / nth c b 0.
Proof.
  unfold vdiv. revert b c.
  induction a as [|x a IH]; intros [|y b] c H; simpl in *; try congruence.
  - destruct c; unfold Qcdiv; ring.
  - destruct c; [reflexivity|]. apply IH. congruence.
Qed.

Section Floor.

Variable m : MultinomialMixture.
Hypothesis Hm : valid_model m = true.

Lemma valid_model_iff :
  valid_model m = true <-> (0 < C m)%nat /\ (0 < K m)%nat /\ 0 < smoothing m.
Proof.
  unfold valid_model. rewrite !andb_true_iff, !Nat.ltb_lt, Qc_gtb_lt. tauto.
Qed.

Lemma smoothing_floor_shaped : shaped_accumulator m (smoothing_floor m) = true.
Proof.
  apply shaped_accumulator_iff. unfold smoothing_floor, fill2, fill. simpl.
  rewrite !repeat_length. repeat split; auto.
  unfold rows_of_length. apply Forall_forall. intros r Hr.
  apply repeat_spec in Hr. subst. apply repeat_length.
Qed.

Lemma smoothing_floor_positive : positive_accumulator (smoothing_floor m).
Proof.
  apply valid_model_iff in Hm. destruct Hm as (HC & HK & Hs).
  unfold positive_accumulator, smoothing_floor. simpl. repeat split.
  - now apply all_pos_fill.
  - apply Qc_mul_pos; [assumption | now apply Qc_of_nat_pos].
  - unfold fill2. apply Forall_forall. intros r Hr.
    apply repeat_spec in Hr. subst. now apply all_pos_fill.
  - apply all_pos_fill. apply Qc_mul_pos; [assumption | now apply Qc_of_nat_pos].
Qed.

Lemma smoothing_floor_balanced : balanced m (smoothing_floor m).
Proof.
  unfold balanced, smoothing_floor. simpl. split.
  - apply reduce_sum_fill.
  - intros c Hc. rewrite nth_fill by assumption.
    unfold column, fill2. rewrite map_repeat. rewrite nth_fill by assumption.
    apply reduce_sum_fill.
Qed.

End Floor.

Section Preservation.

Variable m : MultinomialMixture.

Lemma add_example_positive (a : Accumulator) (l : Z) (p : vec) :
  positive_accumulator a -> all_pos p -> positive_accumulator (add_example a l p).
Proof.
  intros (H1 & H2 & H3 & H4) Hp. unfold positive_accumulator. simpl.
  repeat split.
  - now apply all_pos_vadd.
  - apply Qc_add_pos; [assumption|].
    apply reduce_sum_nonneg. now apply all_pos_nonneg.
  - now apply add_row_all_pos.
  - now apply all_pos_vadd.
Qed.

Lemma add_example_balanced (a : Accumulator) (l : Z) (p : vec) :
  shaped_accumulator m a = true -> length p = C m -> in_range (K m) l = true ->
  balanced m a -> balanced m (add_example a l p).
Proof.
  intros Ha Hp Hl [Hb1 Hb2]. apply shaped_accumulator_iff in Ha.
  destruct Ha as (H1 & H2 & H3 & H4). apply in_range_lt in Hl.
  unfold balanced. simpl. split.
  - rewrite reduce_sum_vadd by congruence. now rewrite Hb1.
  - intros c Hc.
    rewrite (column_add_row (C m)) by (auto; lia).
    rewrite nth_vadd by congruence. now rewrite Hb2.
Qed.

Lemma accumulate_examples_invariant (st : Variables) (labels : list Z)
      (a : Accumulator) :
  (0 < C m)%nat ->
  valid_parameters m st = true ->
  labels_in_range m labels = true ->
  shaped_accumulator m a = true -> positive_accumulator a -> balanced m a ->
  positive_accumulator (accumulate_examples st labels a)
  /\ balanced m (accumulate_examples st labels a).
Proof.
  intros HC Hv. unfold accumulate_examples. revert a.
  induction labels as [|l labels IH]; intros a Hb Ha Hpos Hbal; simpl; [tauto|].
  simpl in Hb. apply andb_true_iff in Hb. destruct Hb as [Hl Hb].
  apply IH; [assumption| | |].
  - apply add_example_shaped; [assumption|]. now apply (responsibility_length m).
  - apply add_example_positive; [assumption|]. now apply (responsibility_pos m).
  - apply add_example_balanced; auto. now apply (responsibility_length m).
Qed.

(** The end-of-epoch update turns a balanced, positive accumulator into
    parameters that are probability distributions. *)
Lemma update_prior_sum (a : Accumulator) :
  positive_accumulator a -> balanced m a -> reduce_sum (update_prior a) = 1.
Proof.
  intros (_ & Hd & _) [Hb _]. unfold update_prior.
  rewrite reduce_sum_scale, Hb. unfold Qcdiv. apply Qcmult_inv_r.
  now apply Qc_pos_neq.
Qed.

Lemma update_emission_column_sum (a : Accumulator) (c : nat) :
  shaped_accumulator m a = true -> positive_accumulator a -> balanced m a ->
  (c < C m)%nat ->
  reduce_sum (column (update_emission a) c) = 1.
Proof.
  intros Ha (_ & _ & _ & Hd) [_ Hb] Hc. apply shaped_accumulator_iff in Ha.
  destruct Ha as (H1 & H2 & H3 & H4).
  unfold update_emission.
  assert (E : column (map (fun row => vdiv row (emission_denominator a))
                          (emission_numerator a)) c
              = map (fun x => x / nth c (emission_denominator a) 0)
                    (column (emission_numerator a) c)).
  { unfold column. rewrite !map_map. apply map_ext_in. intros r Hr.
    apply nth_vdiv. unfold rows_of_length in H3. rewrite Forall_forall in H3.
    rewrite (H3 r Hr). congruence. }
  rewrite E, reduce_sum_scale, (Hb c Hc). unfold Qcdiv. apply Qcmult_inv_r.
  apply Qc_pos_neq. apply all_pos_nth; [assumption | lia].
Qed.

Lemma m_step_finalize_valid (st : Variables) :
  shaped_accumulator m (stats st) = true -> positive_accumulator (stats st) ->
  valid_parameters m (m_step_finalize st) = true.
Proof.
  intros Ha (Hp1 & Hp2 & Hp3 & Hp4). apply shaped_accumulator_iff in Ha.
  destruct Ha as (H1 & H2 & H3 & H4).
  apply valid_parameters_iff. simpl. unfold update_prior, update_emission.
  rewrite !length_map. repeat split; auto.
  - unfold rows_of_length in *. apply Forall_map.
    eapply Forall_impl; [|exact H3]. intros r Hr. simpl in Hr.
    unfold vdiv. rewrite zip_with_length; congruence.
  - now apply all_pos_scale.
  - apply Forall_map. eapply Forall_impl; [|exact Hp3].
    intros r Hr. simpl in Hr. now apply all_pos_vdiv.
Qed.

End Preservation.

Lemma reachable_invariant (ln : Qc -> Qc) (dev : device) (m : MultinomialMixture)
      (st : Variables) :
  valid_model m = true -> reachable ln dev m st -> invariant m st.
Proof.
  intros Hm Hr. pose proof (proj1 (valid_model_iff m) Hm) as (HC & HK & Hs).
  induction Hr as [pr Hv|st st' batch l Hr IH Hb Hrun|st l Hr IH|st Hr IH].
  - unfold invariant. simpl. split; [assumption|]. split; [|split].
    + apply smoothing_floor_shaped.
    + now apply smoothing_floor_positive.
    + apply smoothing_floor_balanced.
  - destruct IH as (Hv & Ha & Hpos & Hbal).
    assert (Hns : not_single batch = true).
    { destruct batch as [|l0 [|l1 batch]]; try reflexivity. exfalso.
      unfold run_training_step, feed in Hrun. cbn [map] in Hrun.
      destruct (e_step dev m st [int32 l0]) as [[num post]|e]; simpl in Hrun;
        discriminate. }
    rewrite run_training_step_closed in Hrun by assumption.
    simpl in Hrun. injection Hrun as <- _.
    destruct (accumulate_examples_invariant m st batch (stats st)) as [Hpos' Hbal'];
      auto.
    unfold invariant. simpl. split; [assumption|]. split; [|split; assumption].
    now apply (accumulate_examples_shaped m).
  - exact IH.
  - destruct IH as (Hv & Ha & Hpos & Hbal).
    unfold invariant. split; [|simpl; tauto].
    now apply m_step_finalize_valid.
Qed.

(** C2.  In every state of the session reachable from the initializer (with
    strictly positive initial parameters) by training steps on batches of
    in-range labels, likelihood resets and end-of-epoch updates, each
    denominator of the accumulator is the sum of its numerator over the
    normalised axis, and the end-of-epoch update yields a prior of [C] entries
    that sums to 1 and an emission matrix of [K] rows each of whose [C]
    columns sums to 1. *)
Theorem finalize_yields_distributions
        (ln : Qc -> Qc) (dev : device) (m : MultinomialMixture) (st : Variables) :
  valid_model m = true ->
  reachable ln dev m st ->
  balanced m (stats st)
  /\ length (prior (m_step_finalize st)) = C m
  /\ reduce_sum (prior (m_step_finalize st)) = 1
  /\ length (emission (m_step_finalize st)) = K m
  /\ forall c, (c < C m)%nat ->
       reduce_sum (column (emission (m_step_finalize st)) c) = 1.
Proof.
  intros Hm Hr.
  destruct (reachable_invariant ln dev m st Hm Hr) as (Hv & Ha & Hpos & Hbal).
  pose proof (m_step_finalize_valid m st Ha Hpos) as Hv'.
  apply valid_parameters_iff in Hv'. destruct Hv' as (HC' & HK' & _).
  split; [exact Hbal|]. split; [exact HC'|]. split; [|split; [exact HK'|]].
  - simpl. now apply (update_prior_sum m).
  - intros c Hc. simpl. now apply (update_emission_column_sum m).
Qed.

(** ** The training loop *)

Section TrainLoop.

Variable ln : Qc -> Qc.
Variable dev : device.
Variable m : MultinomialMixture.
Variable ds : list (list Z).
Variable threshold : Qc.
Variable max_epochs : Z.

(** The fuel [train] gives is enough: the loop always comes to an end. *)
Lemma train_loop_terminates (fuel : nat) :
  forall st current_epoch old delta lik out,
    (Z.to_nat (max_epochs + 1 - current_epoch) < fuel)%nat ->
    train_loop ln dev m ds threshold max_epochs fuel st current_epoch old delta lik out
    <> None.
Proof.
  induction fuel as [|fuel IH]; intros st ep old delta lik out Hf; [lia|].
  simpl. destruct (ep <=? max_epochs)%Z eqn:Hep; simpl; [|discriminate].
  destruct (ext_gtb delta threshold); [|discriminate].
  destruct (run_epoch ln dev m ds st lik) as [[st' l]|e]; [|discriminate].
  apply IH. apply Z.leb_le in Hep. lia.
Qed.

Lemma train_terminates (pr : nat -> Qc) :
  train ln dev m ds threshold max_epochs pr <> None.
Proof.
  unfold train. apply train_loop_terminates. lia.
Qed.

(** The epoch counter and the printed lines only grow. *)
Lemma train_loop_grows (fuel : nat) :
  forall st current_epoch old delta lik out e,
    train_loop ln dev m ds threshold max_epochs fuel st current_epoch old delta lik out
    = Some (Ok e) ->
    (current_epoch <= epochs e)%Z /\ exists rest, printed e = out ++ rest.
Proof.
  induction fuel as [|fuel IH]; intros st ep old delta lik out e H;
    [discriminate|].
  simpl in H.
  destruct ((ep <=? max_epochs)%Z && ext_gtb delta threshold).
  - destruct (run_epoch ln dev m ds st lik) as [[st' l]|err]; [|discriminate].
    apply IH in H. destruct H as [H1 [rest H2]]. split; [lia|].
    exists ((ep + 1, l)%Z :: rest). rewrite H2, <- app_assoc. reflexivity.
  - injection H as <-. simpl. split; [lia|]. exists []. now rewrite app_nil_r.
Qed.

(** An epoch keeps the invariant and, on a dataset that is not empty and
    whose labels are in range, runs to its end. *)
Lemma run_epoch_invariant (st : Variables) (lik : option Qc) :
  (0 < C m)%nat -> ds <> [] -> dataset_in_range m ds = true ->
  no_single_example ds = true ->
  invariant m st ->
  exists st1 st' l,
    run_batches ln dev m (assign_likelihood st 0) lik ds = Ok (st1, Some l)
    /\ run_epoch ln dev m ds st lik = Ok (st', l)
    /\ st' = m_step_finalize st1
    /\ stats st' = accumulate_examples st (concat ds) (stats st)
    /\ invariant m st'.
Proof.
  intros HC Hne Hd Hn (Hv & Ha & Hpos & Hbal).
  destruct (run_batches_closed ln dev m ds (assign_likelihood st 0) lik)
    as (st1 & lik1 & Hrun & Hp & He & Hs & Hl & _); auto.
  specialize (Hl Hne). subst lik1. simpl in Hp, He, Hs.
  rewrite (accumulate_examples_ext st (assign_likelihood st 0)) in Hs
    by reflexivity.
  exists st1, (m_step_finalize st1), (likelihood st1).
  split; [exact Hrun|]. unfold run_epoch. rewrite Hrun. simpl.
  split; [reflexivity|]. split; [reflexivity|]. split; [exact Hs|].
  destruct (accumulate_examples_invariant m st (concat ds) (stats st))
    as [Hpos' Hbal']; auto.
  { now rewrite <- dataset_in_range_concat. }
  assert (Ha' : shaped_accumulator m (stats st1) = true).
  { rewrite Hs. apply (accumulate_examples_shaped m); auto.
    now rewrite <- dataset_in_range_concat. }
  rewrite <- Hs in Hpos', Hbal'.
  unfold invariant. split; [now apply m_step_finalize_valid|].
  simpl. tauto.
Qed.

Lemma train_loop_total (fuel : nat) :
  (0 < C m)%nat -> ds <> [] -> dataset_in_range m ds = true ->
  no_single_example ds = true ->
  forall st current_epoch old delta lik out,
    invariant m st ->
    (Z.to_nat (max_epochs + 1 - current_epoch) < fuel)%nat ->
    exists e,
      train_loop ln dev m ds threshold max_epochs fuel st current_epoch old delta
                 lik out = Some (Ok e)
      /\ invariant m (final e).
Proof.
  intros HC Hne Hd Hn.
  induction fuel as [|fuel IH]; intros st ep old delta lik out Hinv Hf; [lia|].
  simpl. destruct (ep <=? max_epochs)%Z eqn:Hep; simpl.
  - destruct (ext_gtb delta threshold).
    + destruct (run_epoch_invariant st lik HC Hne Hd Hn Hinv)
        as (st1 & st' & l & _ & Hrun & _ & _ & Hinv').
      rewrite Hrun. apply IH; [assumption|]. apply Z.leb_le in Hep. lia.
    + eexists. split; [reflexivity | assumption].
  - eexists. split; [reflexivity | assumption].
Qed.

End TrainLoop.

Lemma train_first_iteration (ln : Qc -> Qc) (dev : device) (m : MultinomialMixture)
      (ds : list (list Z)) (threshold : Qc) (max_epochs : Z) (pr : nat -> Qc) :
  (0 <= max_epochs)%Z ->
  train ln dev m ds threshold max_epochs pr
  = match run_epoch ln dev m ds (global_variables_initializer m pr) None with
    | Err e => Some (Err e)
    | Ok (st1, l) =>
        train_loop ln dev m ds threshold max_epochs (Z.to_nat (max_epochs + 1))
                   st1 1%Z (Fin l) PosInf (Some l) [(1%Z, l)]
    end.
Proof.
  intros Hmax. unfold train. cbn [train_loop].
  replace (0 <=? max_epochs)%Z with true by (symmetry; now apply Z.leb_le).
  cbn [ext_gtb andb].
  destruct (run_epoch ln dev m ds (global_variables_initializer m pr) None)
    as [[st1 l]|e]; reflexivity.
Qed.

(** C9.  When an epoch is run ([max_epochs >= 0]) on a dataset that yields no
    batch, [train] does not return normally: it ends with [UnboundLocalError],
    raised where the delta reads the per-batch likelihood.  So a run of [train]
    that returns normally had a dataset with at least one batch. *)
Theorem train_fails_on_empty_dataset
        (ln : Qc -> Qc) (dev : device) (m : MultinomialMixture)
        (threshold : Qc) (max_epochs : Z) (pr : nat -> Qc) :
  (0 <= max_epochs)%Z ->
  train ln dev m [] threshold max_epochs pr = Some (Err UnboundLocalError)
  /\ forall ds e, train ln dev m ds threshold max_epochs pr = Some (Ok e) -> ds <> [].
Proof.
  intros Hmax.
  assert (H : train ln dev m [] threshold max_epochs pr = Some (Err UnboundLocalError)).
  { rewrite train_first_iteration by assumption. reflexivity. }
  split; [exact H|].
  intros ds e He Hds. subst ds. rewrite H in He. discriminate.
Qed.

(** C8.  For every [max_epochs >= 0] and every threshold, the first test of
    the loop passes: what [train] does is to run one whole epoch from the
    initial state (all batches through the E-step and the accumulation, then
    the end-of-epoch update) and go on from there with [delta] plus infinity.
    So a run that returns normally has counted at least one epoch and printed
    the line of epoch 1 first; and on a dataset that is not empty, with labels
    in range, no batch of one example alone and strictly positive initial
    parameters, the first epoch updates the parameters from the sums over all
    examples and the run returns normally. *)
Theorem train_runs_first_epoch
        (ln : Qc -> Qc) (dev : device) (m : MultinomialMixture)
        (ds : list (list Z)) (threshold : Qc) (max_epochs : Z) (pr : nat -> Qc) :
  (0 <= max_epochs)%Z ->
  let st0 := global_variables_initializer m pr in
  train ln dev m ds threshold max_epochs pr
  = match run_epoch ln dev m ds st0 None with
    | Err e => Some (Err e)
    | Ok (st1, l) =>
        train_loop ln dev m ds threshold max_epochs (Z.to_nat (max_epochs + 1))
                   st1 1%Z (Fin l) PosInf (Some l) [(1%Z, l)]
    end
  /\ (forall e, train ln dev m ds threshold max_epochs pr = Some (Ok e) ->
        (1 <= epochs e)%Z /\ exists l rest, printed e = (1%Z, l) :: rest)
  /\ (valid_model m = true -> valid_parameters m st0 = true ->
      ds <> [] -> dataset_in_range m ds = true -> no_single_example ds = true ->
      exists st1 l e,
        run_epoch ln dev m ds st0 None = Ok (st1, l)
        /\ prior st1
           = update_prior (accumulate_examples st0 (concat ds) (smoothing_floor m))
        /\ emission st1
           = update_emission (accumulate_examples st0 (concat ds) (smoothing_floor m))
        /\ train ln dev m ds threshold max_epochs pr = Some (Ok e)
        /\ (1 <= epochs e)%Z).
Proof.
  intros Hmax st0.
  pose proof (train_first_iteration ln dev m ds threshold max_epochs pr Hmax) as H1.
  fold st0 in H1.
  assert (H2 : forall e, train ln dev m ds threshold max_epochs pr = Some (Ok e) ->
                 (1 <= epochs e)%Z /\ exists l rest, printed e = (1%Z, l) :: rest).
  { intros e He. rewrite H1 in He.
    destruct (run_epoch ln dev m ds st0 None) as [[st1 l]|err]; [|discriminate].
    apply train_loop_grows in He. destruct He as [Hep [rest Hrest]].
    split; [exact Hep|]. exists l, rest. exact Hrest. }
  split; [exact H1|]. split; [exact H2|].
  intros Hm Hv Hne Hd Hn.
  pose proof (proj1 (valid_model_iff m) Hm) as (HC & _).
  assert (Hinv : invariant m st0).
  { apply (reachable_invariant ln dev m st0 Hm). now apply reach_init. }
  destruct (run_epoch_invariant ln dev m ds st0 None HC Hne Hd Hn Hinv)
    as (st1 & st' & l & _ & Hrun & Hst' & Hs & Hinv').
  destruct (train_loop_total ln dev m ds threshold max_epochs
              (Z.to_nat (max_epochs + 1)) HC Hne Hd Hn
              st' 1%Z (Fin l) PosInf (Some l) [(1%Z, l)] Hinv')
    as (e & He & _); [lia|].
  exists st', l, e. split; [exact Hrun|].
  assert (Htrain : train ln dev m ds threshold max_epochs pr = Some (Ok e)).
  { rewrite H1, Hrun. exact He. }
  subst st'. simpl in Hs. simpl.
  split; [now rewrite Hs|]. split; [now rewrite Hs|].
  split; [exact Htrain|]. apply (H2 e Htrain).
Qed.

(** ** Two epochs in a row *)

Lemma prior_denominator_after_examples (m : MultinomialMixture) (st : Variables)
      (labels : list Z) (a : Accumulator) :
  (0 < C m)%nat -> valid_parameters m st = true -> labels_in_range m labels = true ->
  prior_denominator (accumulate_examples st labels a)
  = prior_denominator a + Qc_of_nat (length labels).
Proof.
  intros HC Hv. unfold accumulate_examples. revert a.
  induction labels as [|l labels IH]; intros a Hb.
  - simpl. change (Qc_of_nat 0) with 0. ring.
  - simpl in Hb. apply andb_true_iff in Hb. destruct Hb as [Hl Hb].
    cbn [fold_left length]. rewrite IH by assumption. simpl.
    rewrite (responsibility_sum m) by assumption.
    rewrite Qc_of_nat_S. ring.
Qed.

Lemma train_two_epochs (ln : Qc -> Qc) (dev : device) (m : MultinomialMixture)
      (ds : list (list Z)) (threshold : Qc) (pr : nat -> Qc) :
  valid_model m = true ->
  valid_parameters m (global_variables_initializer m pr) = true ->
  ds <> [] -> dataset_in_range m ds = true -> no_single_example ds = true ->
  exists e,
    train ln dev m ds threshold 1 pr = Some (Ok e)
    /\ epochs e = 2%Z
    /\ prior_denominator (stats (final e))
       = prior_denominator (smoothing_floor m)
         + Qc_of_nat (length (concat ds)) + Qc_of_nat (length (concat ds)).
Proof.
  intros Hm Hv Hne Hd Hn.
  pose proof (proj1 (valid_model_iff m) Hm) as (HC & _).
  set (st0 := global_variables_initializer m pr) in *.
  assert (Hinv0 : invariant m st0).
  { apply (reachable_invariant ln dev m st0 Hm). now apply reach_init. }
  destruct (run_epoch_invariant ln dev m ds st0 None HC Hne Hd Hn Hinv0)
    as (s1 & st1 & l1 & _ & Hrun1 & _ & Hs1 & Hinv1).
  destruct (run_epoch_invariant ln dev m ds st1 (Some l1) HC Hne Hd Hn Hinv1)
    as (s2 & st2 & l2 & _ & Hrun2 & _ & Hs2 & Hinv2).
  exists {| final := st2; epochs := 2; printed := [(1%Z, l1); (2%Z, l2)] |}.
  split.
  - rewrite train_first_iteration by lia. fold st0. rewrite Hrun1.
    change (Z.to_nat (1 + 1)) with 2%nat. cbn [train_loop Z.leb Z.compare].
    cbn [ext_gtb andb]. rewrite Hrun2. reflexivity.
  - split; [reflexivity|]. cbn [final].
    rewrite Hs2, Hs1.
    assert (Hc : labels_in_range m (concat ds) = true)
      by now rewrite <- dataset_in_range_concat.
    rewrite (prior_denominator_after_examples m st1) by (auto; apply Hinv1).
    rewrite (prior_denominator_after_examples m st0) by auto.
    reflexivity.
Qed.

(** C1, on the code.  One hidden state, one symbol, a dataset of one batch
    holding two examples, [max_epochs = 1]: [train] runs two epochs, and at the
    end of the second the prior denominator is the smoothing floor plus 4: the
    sums of the first epoch are still in the accumulator.  Sums over the second
    epoch alone would give the floor plus 2. *)
Theorem accumulator_is_not_reset_between_epochs (ln : Qc -> Qc) :
  exists e,
    train ln CPU model_1_1 [[0; 0]%Z] 0 1 (fun _ => half) = Some (Ok e)
    /\ epochs e = 2%Z
    /\ prior_denominator (stats (final e)) = Q2Qc (40000001 # 10000000)
    /\ prior_denominator (smoothing_floor model_1_1) + Qc_of_nat 2
       = Q2Qc (20000001 # 10000000).
Proof.
  destruct (train_two_epochs ln CPU model_1_1 [[0; 0]%Z] 0 (fun _ => half))
    as (e & He & Hep & Hden); try reflexivity; [discriminate|].
  exists e. split; [exact He|]. split; [exact Hep|].
  split; [rewrite Hden|]; apply Qc_is_canon; reflexivity.
Qed.

(** ** Arg-max *)

Lemma Qc_gtb_false_le (x y : Qc) : Qc_gtb x y = false -> x <= y.
Proof.
  intros H. apply Qcnot_lt_le. intros Hlt. apply Qc_gtb_lt in Hlt. congruence.
Qed.

Lemma argmax_from_spec (l pre : vec) (best : Qc) (bi : nat) :
  (bi < length pre)%nat ->
  nth bi pre 0 = best ->
  (forall j, (j < length pre)%nat -> nth j pre 0 <= best) ->
  (forall j, (j < bi)%nat -> nth j pre 0 < best) ->
  lowest_argmax (pre ++ l) (argmax_from (length pre) best bi l).
Proof.
  revert pre best bi. induction l as [|x l IH]; intros pre best bi Hbi Hbest Hle Hlt.
  - simpl. rewrite app_nil_r. unfold lowest_argmax. rewrite Hbest. auto.
  - simpl. replace (pre ++ x :: l) with ((pre ++ [x]) ++ l)
      by (rewrite <- app_assoc; reflexivity).
    assert (Hlen : length (pre ++ [x]) = S (length pre))
      by (rewrite length_app; simpl; lia).
    destruct (Qc_gtb x best) eqn:Hx.
    + apply Qc_gtb_lt in Hx. rewrite <- Hlen. apply IH.
      * lia.
      * rewrite app_nth2 by lia. now rewrite Nat.sub_diag.
      * intros j Hj. rewrite Hlen in Hj.
        destruct (Nat.eq_dec j (length pre)) as [->|Hne].
        -- rewrite app_nth2 by lia. rewrite Nat.sub_diag. apply Qcle_refl.
        -- rewrite app_nth1 by lia. apply Qclt_le_weak.
           apply Qcle_lt_trans with (y := best); [apply Hle; lia | exact Hx].
      * intros j Hj. rewrite app_nth1 by lia.
        apply Qcle_lt_trans with (y := best); [apply Hle; lia | exact Hx].
    + apply Qc_gtb_false_le in Hx. rewrite <- Hlen. apply IH.
      * rewrite Hlen. lia.
      * rewrite app_nth1 by lia. exact Hbest.
      * intros j Hj. rewrite Hlen in Hj.
        destruct (Nat.eq_dec j (length pre)) as [->|Hne].
        -- rewrite app_nth2 by lia. now rewrite Nat.sub_diag.
        -- rewrite app_nth1 by lia. apply Hle. lia.
      * intros j Hj. rewrite app_nth1 by lia. now apply Hlt.
Qed.

Lemma argmax_spec (row : vec) :
  row <> [] -> exists i, argmax row = Ok i /\ lowest_argmax row i.
Proof.
  intros Hne. destruct row as [|x l]; [congruence|].
  exists (argmax_from 1 x 0 l). split; [reflexivity|].
  apply (argmax_from_spec l [x] x 0%nat); simpl; auto.
  - intros j Hj. replace j with 0%nat by lia. apply Qcle_refl.
  - intros j Hj. lia.
Qed.

Lemma argmax_error (row : vec) (e : error) :
  argmax row = Err e -> e = InvalidArgumentError.
Proof. destruct row; simpl; congruence. Qed.

(** ** Lists of results *)

Lemma mapM_Forall2 {A B : Type} (f : A -> result B) (R : A -> B -> Prop) (l : list A) :
  (forall x, In x l -> exists y, f x = Ok y /\ R x y) ->
  exists ys, mapM f l = Ok ys /\ Forall2 R l ys.
Proof.
  induction l as [|x l IH]; intros H.
  - exists []. split; [reflexivity | constructor].
  - destruct (H x) as (y & Hy & HR); [now left|].
    destruct IH as (ys & Hys & HRs); [intros z Hz; apply H; now right|].
    exists (y :: ys). simpl. rewrite Hy. simpl. rewrite Hys. simpl.
    split; [reflexivity | now constructor].
Qed.

Lemma mapM_error_kind {A B : Type} (f : A -> result B) (e : error) (l : list A) :
  (forall x e', f x = Err e' -> e' = e) ->
  forall e', mapM f l = Err e' -> e' = e.
Proof.
  intros Hf. induction l as [|x l IH]; intros e' H; simpl in H; [discriminate|].
  destruct (f x) as [y|ex] eqn:Hx; simpl in H.
  - destruct (mapM f l) as [ys|el]; simpl in H; [discriminate|].
    injection H as <-. now apply IH.
  - injection H as <-. now apply (Hf x).
Qed.

Lemma mapM_Err {A B : Type} (f : A -> result B) (e : error) (l : list A) :
  (forall x e', f x = Err e' -> e' = e) ->
  (exists x, In x l /\ f x = Err e) ->
  mapM f l = Err e.
Proof.
  intros Hf (x & Hin & Hx).
  destruct (mapM f l) as [ys|e'] eqn:E.
  - exfalso. revert ys E. induction l as [|a l IH]; intros ys E; [contradiction|].
    simpl in E. destruct (f a) as [b|ea] eqn:Ha; simpl in E; [|discriminate].
    destruct (mapM f l) as [bs|el]; simpl in E; [|discriminate].
    destruct Hin as [->|Hin]; [congruence|]. now apply (IH Hin bs).
  - f_equal. now apply (mapM_error_kind f e l Hf).
Qed.

Lemma mapM_length {A B : Type} (f : A -> result B) (l : list A) (ys : list B) :
  mapM f l = Ok ys -> length ys = length l.
Proof.
  revert ys. induction l as [|x l IH]; intros ys H; simpl in H.
  - now injection H as <-.
  - destruct (f x) as [y|e]; simpl in H; [|discriminate].
    destruct (mapM f l) as [bs|el]; simpl in H; [|discriminate].
    injection H as <-. simpl. f_equal. now apply IH.
Qed.

(** ** Inference *)

Lemma mapM_map {A B D : Type} (f : B -> result D) (g : A -> B) (l : list A) :
  mapM f (map g l) = mapM (fun x => f (g x)) l.
Proof.
  induction l as [|x l IH]; simpl; [reflexivity|]. now rewrite IH.
Qed.

Lemma shaped_parameters_iff (m : MultinomialMixture) (st : Variables) :
  shaped_parameters m st = true <->
  length (prior st) = C m /\ length (emission st) = K m
  /\ rows_of_length (C m) (emission st).
Proof.
  unfold shaped_parameters. rewrite andb_true_iff, Nat.eqb_eq, shaped_iff. tauto.
Qed.

Lemma valid_parameters_shaped (m : MultinomialMixture) (st : Variables) :
  valid_parameters m st = true -> shaped_parameters m st = true.
Proof.
  rewrite valid_parameters_iff, shaped_parameters_iff. tauto.
Qed.

Section InferenceProofs.

Variable dev : device.
Variable m : MultinomialMixture.
Variable st : Variables.
Hypothesis HC : (0 < C m)%nat.
Hypothesis Hv : shaped_parameters m st = true.

Lemma gather_in_range_shaped (batch : list Z) :
  labels_in_range m batch = true ->
  emission_for_labels dev m st batch
  = Ok (map (fun l => nth (Z.to_nat l) (emission st) []) batch).
Proof.
  intros Hb. apply labels_in_range_iff in Hb. rewrite Forall_forall in Hb.
  apply shaped_parameters_iff in Hv. destruct Hv as (_ & HK & _).
  unfold emission_for_labels.
  destruct batch as [|l0 batch]; [apply gather_nd_nil|].
  rewrite gather_nd_rows.
  - apply mapM_Ok.
    intros l Hl. rewrite HK, (Hb l Hl). reflexivity.
  - exact HC.
  - rewrite HK. pose proof (in_range_lt _ _ (Hb l0 (or_introl eq_refl))). lia.
Qed.

Lemma numerator_row_length_shaped (l : Z) :
  in_range (K m) l = true -> length (numerator_row st l) = C m.
Proof.
  intros Hl. apply in_range_lt in Hl.
  apply shaped_parameters_iff in Hv. destruct Hv as (Hp & HK & Hrows).
  unfold numerator_row, vmul. rewrite zip_with_length.
  - apply rows_of_length_nth; [assumption | lia].
  - rewrite Hp. apply rows_of_length_nth; [assumption | lia].
Qed.

Lemma run_inference_closed (batch : list Z) :
  labels_in_range m batch = true ->
  exists states,
    run_inference dev m st batch = Ok (st, states) /\ states_of st batch states.
Proof.
  intros Hb. unfold run_inference. rewrite (feed_in_range m batch Hb).
  rewrite (gather_in_range_shaped batch Hb). simpl.
  unfold numerator, inference. rewrite map_map, mapM_map.
  destruct (mapM_Forall2
              (fun l => argmax (vmul (nth (Z.to_nat l) (emission st) []) (prior st)))
              (fun l i => lowest_argmax (numerator_row st l) i) batch)
    as (states & Hs & HR).
  - intros l Hl. apply argmax_spec. intros E.
    apply labels_in_range_iff in Hb. rewrite Forall_forall in Hb.
    apply (f_equal (@length Qc)) in E.
    change (length (numerator_row st l) = 0%nat) in E.
    rewrite (numerator_row_length_shaped l (Hb l Hl)) in E. lia.
  - exists states. rewrite Hs. simpl. split; [reflexivity | exact HR].
Qed.

Lemma inference_loop_closed (ds : list (list Z)) :
  dataset_in_range m ds = true ->
  forall preds,
  exists preds' new,
    inference_loop dev m st preds ds = Ok (st, preds')
    /\ states_of st (concat ds) new
    /\ ravel preds' = ravel preds ++ new
    /\ (ds = [] -> preds' = preds)
    /\ (preds <> PyNone -> ds <> [] -> preds' = NdArray (ravel preds ++ new)).
Proof.
  induction ds as [|b ds IH]; intros Hd preds.
  - exists preds, []. simpl. rewrite app_nil_r.
    repeat split; auto; try constructor. congruence.
  - simpl in Hd. apply andb_true_iff in Hd. destruct Hd as [Hb Hd].
    destruct (run_inference_closed b Hb) as (a & Ha & HRa).
    simpl. rewrite Ha. simpl.
    set (preds1 := match preds with
                   | PyNone => PyList [a]
                   | PyList l => NdArray (concat l ++ a ++ [])
                   | NdArray p => NdArray (p ++ a ++ [])
                   end).
    assert (Hr1 : ravel preds1 = ravel preds ++ a).
    { unfold preds1. destruct preds; simpl; now rewrite ?app_nil_r. }
    assert (Hn1 : preds <> PyNone -> preds1 = NdArray (ravel preds ++ a)).
    { unfold preds1. destruct preds; simpl; intros Hp; try congruence;
        now rewrite ?app_nil_r. }
    destruct (IH Hd preds1) as (preds' & new' & Hrun & HR & Hrav & Hnil & Hnd).
    exists preds', (a ++ new'). split; [exact Hrun|].
    split; [unfold states_of in *; now apply Forall2_app|].
    split; [rewrite Hrav, Hr1; now rewrite app_assoc|].
    split; [discriminate|].
    intros Hp _. destruct ds as [|b' ds].
    + rewrite (Hnil eq_refl), (Hn1 Hp).
      simpl in HR. inversion HR; subst. now rewrite app_nil_r.
    + rewrite Hnd; [|destruct preds; discriminate|discriminate].
      now rewrite Hr1, app_assoc.
Qed.

End InferenceProofs.

(** C10.  On a dataset that yields no batch, [perform_inference] returns
    [None], the value [predictions] starts from: neither an empty array nor an
    empty list. *)
Theorem perform_inference_of_no_batch_is_None
        (dev : device) (m : MultinomialMixture) (st : Variables) :
  perform_inference dev m st [] = Ok (st, PyNone)
  /\ PyNone <> NdArray [] /\ PyNone <> PyList [].
Proof.
  split; [reflexivity|]. split; discriminate.
Qed.

(** C7, as the code has it.  With at least one hidden state, parameters of
    the model's shapes and labels in range, [perform_inference]
    returns normally and leaves the session's Variables as they were.  The
    labels held by the returned value, read in order, are one per example of
    the batches concatenated in enumeration order, each the lowest arg-max over
    [c] of [numerator[u, c] = emission[label_u, c] * prior[c]].  The returned
    value is [None] when there is no batch and the flat array of these labels
    when there are two batches or more. *)
Theorem perform_inference_labels
        (dev : device) (m : MultinomialMixture) (st : Variables) (ds : list (list Z)) :
  (0 < C m)%nat ->
  shaped_parameters m st = true ->
  dataset_in_range m ds = true ->
  exists preds,
    perform_inference dev m st ds = Ok (st, preds)
    /\ states_of st (concat ds) (ravel preds)
    /\ (forall l c, nth c (numerator_row st l) 0
                    = nth c (nth (Z.to_nat l) (emission st) []) 0 * nth c (prior st) 0)
    /\ (ds = [] -> preds = PyNone)
    /\ ((2 <= length ds)%nat -> preds = NdArray (ravel preds)).
Proof.
  intros HC Hv Hd. unfold perform_inference.
  destruct (inference_loop_closed dev m st HC Hv ds Hd PyNone)
    as (preds & new & Hrun & HR & Hrav & Hnil & _).
  simpl in Hrav. subst new.
  exists preds. split; [exact Hrun|]. split; [exact HR|].
  split; [intros l c; apply nth_vmul|]. split; [exact Hnil|].
  intros Hlen. destruct ds as [|b1 [|b2 ds]]; simpl in Hlen; try lia.
  clear Hnil HR.
  simpl in Hd. apply andb_true_iff in Hd. destruct Hd as [Hb1 Hd].
  destruct (run_inference_closed dev m st HC Hv b1 Hb1) as (a & Ha & _).
  cbn [inference_loop] in Hrun. rewrite Ha in Hrun. cbn [bind] in Hrun.
  destruct (inference_loop_closed dev m st HC Hv (b2 :: ds) Hd (PyList [a]))
    as (preds' & new & Hrun' & _ & Hrav' & _ & Hnd).
  cbn [inference_loop] in Hrun'. rewrite Hrun' in Hrun.
  injection Hrun as <-.
  rewrite Hnd by discriminate. reflexivity.
Qed.

(** ** Labels out of range *)

Lemma forallb_false {A : Type} (f : A -> bool) (l : list A) :
  forallb f l = false -> exists x, In x l /\ f x = false.
Proof.
  induction l as [|a l IH]; simpl; [discriminate|].
  destruct (f a) eqn:Ha; simpl.
  - intros H. destruct (IH H) as (x & Hx & Hfx). exists x. auto.
  - intros _. exists a. auto.
Qed.

Lemma gather_nd_error (dev : device) (cols : nat) (params : mat) (idx : list Z)
      (e : error) :
  gather_nd dev cols params idx = Err e -> e = InvalidArgumentError.
Proof.
  unfold gather_nd.
  destruct (((length params =? 0)%nat || (cols =? 0)%nat)
            && negb (length idx =? 0)%nat); [congruence|].
  apply mapM_error_kind.
  intros i e'. destruct (in_range (length params) i); [discriminate|].
  destruct dev; congruence.
Qed.

Lemma gather_nd_cpu_out_of_range (cols : nat) (params : mat) (idx : list Z) :
  forallb (in_range (length params)) idx = false ->
  gather_nd CPU cols params idx = Err InvalidArgumentError.
Proof.
  intros H. apply forallb_false in H. destruct H as (i & Hi & Hr).
  unfold gather_nd.
  destruct (((length params =? 0)%nat || (cols =? 0)%nat)
            && negb (length idx =? 0)%nat); [reflexivity|].
  apply mapM_Err.
  - intros x e'. destruct (in_range (length params) x); congruence.
  - exists i. split; [exact Hi|]. now rewrite Hr.
Qed.

Lemma scatter_add_rows_error (dev : device) (idx : list Z) :
  forall ref updates e,
    scatter_add_rows dev ref idx updates = Err e -> e = InvalidArgumentError.
Proof.
  induction idx as [|i idx IH]; intros ref updates e H; simpl in H; [discriminate|].
  destruct updates as [|u updates]; [discriminate|].
  destruct (in_range (length ref) i).
  - now apply IH in H.
  - destruct dev; [congruence | now apply IH in H].
Qed.

Lemma scatter_add_error (dev : device) (ref : mat) (idx : squeezed) (updates : mat)
      (e : error) :
  scatter_add dev ref idx updates = Err e -> e = InvalidArgumentError.
Proof.
  destruct idx as [i|l]; simpl; [congruence|]. apply scatter_add_rows_error.
Qed.

Section OutOfRange.

Variable ln : Qc -> Qc.
Variable m : MultinomialMixture.

Lemma run_training_step_error (dev : device) (st : Variables) (batch : list Z)
      (e : error) :
  run_training_step ln dev m st batch = Err e -> e = InvalidArgumentError.
Proof.
  unfold run_training_step, e_step, emission_for_labels, m_step_accumulate,
    update_emission_num.
  destruct (gather_nd dev (C m) (emission st) (feed batch)) as [efl|e1] eqn:Hg;
    simpl.
  - destruct (scatter_add dev _ (squeeze (feed batch)) _) as [en|e2] eqn:Hs; simpl;
      [discriminate|].
    intros H. injection H as <-. now apply scatter_add_error in Hs.
  - intros H. injection H as <-. now apply gather_nd_error in Hg.
Qed.

Lemma run_training_step_emission (dev : device) (st st' : Variables)
      (batch : list Z) (l : Qc) :
  run_training_step ln dev m st batch = Ok (st', l) -> emission st' = emission st.
Proof.
  unfold run_training_step.
  destruct (e_step dev m st (feed batch)) as [[num post]|e1]; simpl; [|discriminate].
  destruct (m_step_accumulate dev m (stats st) (feed batch) post) as [a|e2]; simpl;
    [|discriminate].
  intros H. injection H as <- _. reflexivity.
Qed.

(** The session only sees the converted labels. *)
Lemma run_training_step_feed (dev : device) (st : Variables) (batch : list Z) :
  run_training_step ln dev m st (feed batch) = run_training_step ln dev m st batch.
Proof.
  unfold run_training_step. now rewrite feed_idempotent.
Qed.

Lemma run_batches_feed (dev : device) (ds : list (list Z)) :
  forall st lik,
    run_batches ln dev m st lik (map feed ds) = run_batches ln dev m st lik ds.
Proof.
  induction ds as [|b ds IH]; intros st lik; [reflexivity|].
  cbn [map run_batches]. rewrite run_training_step_feed.
  destruct (run_training_step ln dev m st b) as [[st' l]|e]; simpl;
    [apply IH | reflexivity].
Qed.

Lemma run_epoch_feed (dev : device) (ds : list (list Z)) (st : Variables)
      (lik : option Qc) :
  run_epoch ln dev m (map feed ds) st lik = run_epoch ln dev m ds st lik.
Proof.
  unfold run_epoch. now rewrite run_batches_feed.
Qed.

Lemma train_loop_feed (dev : device) (ds : list (list Z)) (threshold : Qc)
      (max_epochs : Z) (fuel : nat) :
  forall st current_epoch old delta lik out,
    train_loop ln dev m (map feed ds) threshold max_epochs fuel st current_epoch
               old delta lik out
    = train_loop ln dev m ds threshold max_epochs fuel st current_epoch
                 old delta lik out.
Proof.
  induction fuel as [|fuel IH]; intros st current_epoch old delta lik out;
    [reflexivity|].
  cbn [train_loop]. rewrite run_epoch_feed.
  destruct ((current_epoch <=? max_epochs)%Z && ext_gtb delta threshold);
    [|reflexivity].
  destruct (run_epoch ln dev m ds st lik) as [[st' l]|e]; [apply IH | reflexivity].
Qed.

Lemma train_feed (dev : device) (ds : list (list Z)) (threshold : Qc)
      (max_epochs : Z) (pr : nat -> Qc) :
  train ln dev m (map feed ds) threshold max_epochs pr
  = train ln dev m ds threshold max_epochs pr.
Proof.
  unfold train. apply train_loop_feed.
Qed.

Lemma run_batches_cpu_out_of_range (ds : list (list Z)) :
  forall st lik,
    length (emission st) = K m ->
    dataset_in_range m (map feed ds) = false ->
    run_batches ln CPU m st lik ds = Err InvalidArgumentError.
Proof.
  unfold dataset_in_range.
  induction ds as [|b ds IH]; intros st lik HK Hd; cbn [map forallb] in Hd;
    [discriminate|].
  cbn [run_batches].
  destruct (run_training_step ln CPU m st b) as [[st' l]|e] eqn:Hstep; simpl.
  - destruct (labels_in_range m (feed b)) eqn:Hb; simpl in Hd.
    + apply IH; [|exact Hd].
      now rewrite (run_training_step_emission CPU st st' b l Hstep).
    + exfalso. unfold run_training_step, e_step, emission_for_labels in Hstep.
      rewrite gather_nd_cpu_out_of_range in Hstep by now rewrite HK.
      discriminate.
  - f_equal. now apply (run_training_step_error CPU st b).
Qed.

Lemma train_cpu_out_of_range (ds : list (list Z)) (threshold : Qc)
      (max_epochs : Z) (pr : nat -> Qc) :
  (0 <= max_epochs)%Z ->
  length (emission_init m) = K m ->
  dataset_in_range m (map feed ds) = false ->
  train ln CPU m ds threshold max_epochs pr = Some (Err InvalidArgumentError).
Proof.
  intros Hmax HK Hd. rewrite train_first_iteration by assumption.
  unfold run_epoch. rewrite run_batches_cpu_out_of_range; auto.
Qed.

Lemma run_inference_error (dev : device) (st : Variables) (batch : list Z)
      (e : error) :
  run_inference dev m st batch = Err e -> e = InvalidArgumentError.
Proof.
  unfold run_inference, emission_for_labels, inference.
  destruct (gather_nd dev (C m) (emission st) (feed batch)) as [efl|e1] eqn:Hg;
    simpl.
  - destruct (mapM argmax (numerator st efl)) as [s|e2] eqn:Hs; simpl;
      [discriminate|].
    intros H. injection H as <-.
    apply (mapM_error_kind argmax InvalidArgumentError (numerator st efl));
      [|exact Hs].
    intros x e'. apply argmax_error.
  - intros H. injection H as <-. now apply gather_nd_error in Hg.
Qed.

Lemma gather_nd_length (dev : device) (cols : nat) (params efl : mat)
      (idx : list Z) :
  gather_nd dev cols params idx = Ok efl -> length efl = length idx.
Proof.
  unfold gather_nd.
  destruct (((length params =? 0)%nat || (cols =? 0)%nat)
            && negb (length idx =? 0)%nat); [discriminate|].
  intros H. now apply mapM_length in H.
Qed.

Lemma run_inference_state (dev : device) (st st' : Variables) (batch : list Z)
      (a : list nat) :
  run_inference dev m st batch = Ok (st', a) ->
  st' = st /\ length a = length batch.
Proof.
  unfold run_inference, emission_for_labels, inference.
  destruct (gather_nd dev (C m) (emission st) (feed batch)) as [efl|e1] eqn:Hg;
    simpl; [|discriminate].
  destruct (mapM argmax (numerator st efl)) as [s|e2] eqn:Hs; simpl;
    [|discriminate].
  intros H. injection H as <- <-. split; [reflexivity|].
  apply mapM_length in Hs. apply gather_nd_length in Hg.
  unfold numerator in Hs. rewrite length_map in Hs.
  rewrite feed_length in Hg. congruence.
Qed.

Lemma run_inference_feed (dev : device) (st : Variables) (batch : list Z) :
  run_inference dev m st (feed batch) = run_inference dev m st batch.
Proof.
  unfold run_inference. now rewrite feed_idempotent.
Qed.

Lemma inference_loop_feed (dev : device) (ds : list (list Z)) :
  forall st preds,
    inference_loop dev m st preds (map feed ds) = inference_loop dev m st preds ds.
Proof.
  induction ds as [|b ds IH]; intros st preds; [reflexivity|].
  cbn [map inference_loop]. rewrite run_inference_feed.
  destruct (run_inference dev m st b) as [[st' a]|e]; simpl;
    [apply IH | reflexivity].
Qed.

Lemma inference_loop_cpu_out_of_range (st : Variables) (ds : list (list Z)) :
  length (emission st) = K m ->
  dataset_in_range m (map feed ds) = false ->
  forall preds, inference_loop CPU m st preds ds = Err InvalidArgumentError.
Proof.
  unfold dataset_in_range.
  intros HK. induction ds as [|b ds IH]; intros Hd preds; cbn [map forallb] in Hd;
    [discriminate|].
  cbn [inference_loop].
  destruct (run_inference CPU m st b) as [[st' a]|e] eqn:Hrun; simpl.
  - destruct (run_inference_state CPU st st' b a Hrun) as [-> _].
    destruct (labels_in_range m (feed b)) eqn:Hb; simpl in Hd.
    + now apply IH.
    + exfalso. unfold run_inference, emission_for_labels in Hrun.
      rewrite gather_nd_cpu_out_of_range in Hrun by now rewrite HK.
      discriminate.
  - f_equal. now apply (run_inference_error CPU st b).
Qed.

End OutOfRange.

(** C4, as the code has it.  Neither [train] nor [perform_inference] looks at
    the observation values.  A batch is converted to the [int32] of the
    placeholder, a value that does not fit being reduced modulo [2^32], and
    reaches [gather_nd] as such: both functions do on any dataset what they
    do on its conversion, so a value outside [[0, K)] whose conversion is a
    symbol is used as that symbol, and [perform_inference] returns the
    hidden states of the converted values.  When some batch of the dataset
    holds a value whose conversion is outside [[0, K)], with the CPU kernels
    the gather itself raises [InvalidArgumentError] on that batch, which ends
    [perform_inference] and (when an epoch is run) [train]. *)
Theorem out_of_range_label_reaches_gather
        (ln : Qc -> Qc) (m : MultinomialMixture) (st : Variables)
        (ds : list (list Z)) (threshold : Qc) (max_epochs : Z) (pr : nat -> Qc) :
  shaped_parameters m st = true ->
  length (emission_init m) = K m ->
  (0 <= max_epochs)%Z ->
  dataset_in_range m (map feed ds) = false ->
  (forall dev ds0,
      perform_inference dev m st ds0 = perform_inference dev m st (map feed ds0)
      /\ train ln dev m ds0 threshold max_epochs pr
         = train ln dev m (map feed ds0) threshold max_epochs pr)
  /\ (forall dev ds0,
         (0 < C m)%nat ->
         dataset_in_range m (map feed ds0) = true ->
         exists preds,
           perform_inference dev m st ds0 = Ok (st, preds)
           /\ states_of st (concat (map feed ds0)) (ravel preds))
  /\ (exists batch,
         In batch ds /\ labels_in_range m (feed batch) = false
         /\ emission_for_labels CPU m st (feed batch) = Err InvalidArgumentError
         /\ run_inference CPU m st batch = Err InvalidArgumentError
         /\ run_training_step ln CPU m st batch = Err InvalidArgumentError)
  /\ perform_inference CPU m st ds = Err InvalidArgumentError
  /\ train ln CPU m ds threshold max_epochs pr = Some (Err InvalidArgumentError).
Proof.
  intros Hv Hinit Hmax Hd.
  pose proof (proj1 (shaped_parameters_iff m st) Hv) as (_ & HK & _).
  split; [|split; [|split; [|split]]].
  - intros dev ds0. split.
    + unfold perform_inference. now rewrite inference_loop_feed.
    + now rewrite train_feed.
  - intros dev ds0 HC Hd0. unfold perform_inference.
    rewrite <- inference_loop_feed.
    destruct (inference_loop_closed dev m st HC Hv (map feed ds0) Hd0 PyNone)
      as (preds & new & Hrun & HR & Hrav & _).
    simpl in Hrav. subst new.
    exists preds. split; [exact Hrun | exact HR].
  - unfold dataset_in_range in Hd.
    destruct (forallb_false _ _ Hd) as (fb & Hin & Hb).
    apply in_map_iff in Hin. destruct Hin as (batch & <- & Hin).
    assert (Hg : emission_for_labels CPU m st (feed batch)
                 = Err InvalidArgumentError).
    { unfold emission_for_labels. apply gather_nd_cpu_out_of_range.
      now rewrite HK. }
    exists batch. split; [exact Hin|]. split; [exact Hb|]. split; [exact Hg|].
    split.
    + unfold run_inference. now rewrite Hg.
    + unfold run_training_step, e_step. now rewrite Hg.
  - unfold perform_inference. now apply inference_loop_cpu_out_of_range.
  - now apply train_cpu_out_of_range.
Qed.

(** ** Construction *)

Lemma initial_emission_shaped (k c : nat) (draw : nat -> nat -> Qc) :
  shaped k c (initial_emission k c draw) = true.
Proof.
  apply shaped_iff. unfold initial_emission, rows_of_length.
  rewrite length_map, length_seq. split; [reflexivity|].
  apply Forall_map. apply Forall_forall. intros v _.
  now rewrite length_map, length_seq.
Qed.

(** C5, as the code has it.  The constructor makes no check of its own on [c]
    and [k].  With a negative [c] or [k] it fails with the [ValueError] raised
    where an initial value of that size is built, and no model is built;
    otherwise, also when [c] or [k] is zero, it returns a model with [c]
    hidden states, [k] symbols and an emission array of shape [[k, c]]. *)
Theorem construction_fails_only_on_negative_sizes
        (c k : Z) (draw : nat -> nat -> Qc) :
  ((c < 0 \/ k < 0)%Z -> __init__ c k draw = Err ValueError)
  /\ ((0 <= c)%Z -> (0 <= k)%Z ->
      exists m, __init__ c k draw = Ok m
                /\ C m = Z.to_nat c /\ K m = Z.to_nat k
                /\ shaped (K m) (C m) (emission_init m) = true
                /\ valid_model m = ((0 <? c)%Z && (0 <? k)%Z)).
Proof.
  unfold __init__. split.
  - intros H.
    replace ((c <? 0)%Z || (k <? 0)%Z) with true; [reflexivity|].
    symmetry. apply orb_true_iff. rewrite !Z.ltb_lt. exact H.
  - intros Hc Hk.
    replace ((c <? 0)%Z || (k <? 0)%Z) with false.
    + eexists. split; [reflexivity|]. cbn [C K emission_init].
      split; [reflexivity|]. split; [reflexivity|].
      split; [apply initial_emission_shaped|].
      unfold valid_model. cbn [C K smoothing].
      replace (Qc_gtb (Q2Qc (1 # 10000000)) 0) with true by reflexivity.
      rewrite andb_true_r. f_equal.
      * destruct (0 <? c)%Z eqn:E.
        -- apply Nat.ltb_lt. apply Z.ltb_lt in E. lia.
        -- apply Nat.ltb_ge. apply Z.ltb_ge in E. lia.
      * destruct (0 <? k)%Z eqn:E.
        -- apply Nat.ltb_lt. apply Z.ltb_lt in E. lia.
        -- apply Nat.ltb_ge. apply Z.ltb_ge in E. lia.
    + symmetry. apply orb_false_iff. rewrite !Z.ltb_ge. auto.
Qed.

(** * The statements on concrete inputs *)

(** C4, counterexample.  [model_2_2] has two symbols.  The batch
    [[0; 4294967296]] holds a value out of range, [2^32], which the
    conversion to [int32] turns into 0.  With the CPU kernels
    [perform_inference] does not reject the batch: the gather reads row 0 of
    the emission matrix for both examples and the call returns hidden state
    1 for each. *)
Lemma out_of_range_label_is_not_rejected :
  labels_in_range model_2_2 [0; 4294967296]%Z = false
  /\ feed [0; 4294967296]%Z = [0; 0]%Z
  /\ emission_for_labels CPU model_2_2 state_2_2 (feed [0; 4294967296]%Z)
     = Ok [nth 0 (emission state_2_2) []; nth 0 (emission state_2_2) []]
  /\ perform_inference CPU model_2_2 state_2_2 [[0; 4294967296]]%Z
     = Ok (state_2_2, PyList [[1%nat; 1%nat]]).
Proof.
  split; [reflexivity|]. split; [reflexivity|]. split; reflexivity.
Qed.

(** C5, counterexample.  Construction with [c = 0] hidden states succeeds, and
    the model it returns has an empty prior. *)
Lemma construction_with_no_hidden_state_succeeds :
  exists m,
    __init__ 0 1 (fun _ _ => half) = Ok m
    /\ C m = 0%nat
    /\ prior (global_variables_initializer m (fun _ => half)) = [].
Proof.
  eexists. split; [reflexivity|]. split; reflexivity.
Qed.

(** C7, counterexample.  On a dataset with no batch the value returned is
    [None]; on a dataset of one batch of two examples it is a list of one
    element, the array of the two labels.  Neither is a sequence holding one
    label per example. *)
Lemma perform_inference_value_is_not_a_label_sequence :
  perform_inference CPU model_2_2 state_2_2 [] = Ok (state_2_2, PyNone)
  /\ perform_inference CPU model_2_2 state_2_2 [[0; 1]%Z]
     = Ok (state_2_2, PyList [[1; 1]%nat])
  /\ forall ds labels,
       In ds [[]; [[0; 1]%Z]] ->
       perform_inference CPU model_2_2 state_2_2 ds <> Ok (state_2_2, NdArray labels).
Proof.
  assert (H1 : perform_inference CPU model_2_2 state_2_2 [] = Ok (state_2_2, PyNone))
    by reflexivity.
  assert (H2 : perform_inference CPU model_2_2 state_2_2 [[0; 1]%Z]
               = Ok (state_2_2, PyList [[1; 1]%nat])) by reflexivity.
  split; [exact H1|]. split; [exact H2|].
  intros ds labels [<-|[<-|[]]]; [rewrite H1 | rewrite H2]; discriminate.
Qed.

Lemma model_2_2_has_states : (0 < C model_2_2)%nat.
Proof. simpl. lia. Qed.

(** C3 on [model_2_2] after the initializer, for the batch [[0; 1; 1]]. *)
Lemma posterior_rows_sum_to_one_witness :
  valid_parameters model_2_2 state_2_2 = true
  /\ labels_in_range model_2_2 [0; 1; 1]%Z = true
  /\ exists num post,
       e_step CPU model_2_2 state_2_2 [0; 1; 1]%Z = Ok (num, post)
       /\ length post = 3%nat
       /\ forall u, (u < 3)%nat -> reduce_sum (nth u post []) = 1.
Proof.
  split; [reflexivity|]. split; [reflexivity|].
  destruct (posterior_rows_sum_to_one CPU model_2_2 state_2_2 [0; 1; 1]%Z)
    as (num & post & He & Hlen & Hrows).
  - simpl. lia.
  - reflexivity.
  - reflexivity.
  - exists num, post. split; [exact He|]. split; [exact Hlen|].
    intros u Hu. apply (Hrows u Hu).
Defined.

(** C2 on [model_2_2]: the state after the initializer and one training step
    on the batch [[0; 1; 1]]. *)
Lemma finalize_yields_distributions_witness :
  exists st,
    valid_model model_2_2 = true
    /\ reachable rational_log CPU model_2_2 st
    /\ prior_denominator (stats st) <> prior_denominator (smoothing_floor model_2_2)
    /\ reduce_sum (prior (m_step_finalize st)) = 1
    /\ forall c, (c < 2)%nat ->
         reduce_sum (column (emission (m_step_finalize st)) c) = 1.
Proof.
  pose (l := compute_likelihood rational_log state_2_2
               (map (numerator_row state_2_2) [0; 1; 1]%Z)
               (map (responsibility state_2_2) [0; 1; 1]%Z)).
  pose (st := {| prior := prior state_2_2; emission := emission state_2_2;
                 stats := accumulate_examples state_2_2 [0; 1; 1]%Z (stats state_2_2);
                 likelihood := l |}).
  exists st.
  assert (Hr : reachable rational_log CPU model_2_2 st).
  { apply (reach_batch rational_log CPU model_2_2 state_2_2 st [0; 1; 1]%Z l).
    - apply reach_init. reflexivity.
    - reflexivity.
    - apply run_training_step_closed; try reflexivity. simpl. lia. }
  split; [reflexivity|]. split; [exact Hr|].
  split.
  - intros E. apply (f_equal this) in E. vm_compute in E. discriminate.
  - destruct (finalize_yields_distributions rational_log CPU model_2_2 st eq_refl Hr)
      as (_ & _ & Hp & _ & He).
    split; [exact Hp | exact He].
Defined.

(** C6, on the code.  The observations 0, 1, 1 split as the batches [[0; 1]],
    [[1]] and as the single batch [[0; 1; 1]], both from the state after the
    initializer.  The first run ends with [InvalidArgumentError] at the batch of
    one example (its squeezed label is a scalar, which the scatter rejects); the
    second runs to the end.  So the two partitions do not leave the same
    accumulated sums. *)
Theorem batch_of_one_example_stops_the_accumulation (ln : Qc -> Qc) :
  Permutation (concat [[0; 1]; [1]]%Z) (concat [[0; 1; 1]]%Z)
  /\ dataset_in_range model_2_2 [[0; 1]; [1]]%Z = true
  /\ run_batches ln CPU model_2_2 state_2_2 None [[0; 1]; [1]]%Z
     = Err InvalidArgumentError
  /\ exists st lik,
       run_batches ln CPU model_2_2 state_2_2 None [[0; 1; 1]]%Z = Ok (st, lik)
       /\ stats st = accumulate_examples state_2_2 [0; 1; 1]%Z
                                         (smoothing_floor model_2_2).
Proof.
  split; [apply Permutation_refl|]. split; [reflexivity|]. split; [reflexivity|].
  destruct (run_batches_closed ln CPU model_2_2 [[0; 1; 1]]%Z state_2_2 None
              model_2_2_has_states)
    as (st & lik & Hrun & _ & _ & Hs & _); try reflexivity.
  exists st, lik. split; [exact Hrun | exact Hs].
Qed.

(** The same observations in batches of two examples or more: the sums agree. *)
Example accumulation_independent_of_batching_2_2 :
  exists st1 lik1 st2 lik2,
    run_batches rational_log CPU model_2_2 state_2_2 None [[0; 1]; [1; 1]]%Z
    = Ok (st1, lik1)
    /\ run_batches rational_log CPU model_2_2 state_2_2 None [[1; 1; 0; 1]]%Z
       = Ok (st2, lik2)
    /\ stats st1 = stats st2
    /\ prior (m_step_finalize st1) = prior (m_step_finalize st2)
    /\ emission (m_step_finalize st1) = emission (m_step_finalize st2).
Proof.
  apply (accumulation_independent_of_batching
           rational_log CPU model_2_2 state_2_2 [[0; 1]; [1; 1]]%Z [[1; 1; 0; 1]]%Z
           model_2_2_has_states);
    try reflexivity.
  simpl. apply (Permutation_cons_app [1; 1]%Z [1]%Z 0%Z). apply Permutation_refl.
Qed.

(** C7 on [model_2_2]: seven examples in two batches. *)
Lemma perform_inference_labels_witness :
  shaped_parameters model_2_2 state_2_2 = true
  /\ dataset_in_range model_2_2 [[0; 0; 0; 1]; [1; 1; 1]]%Z = true
  /\ exists preds,
       perform_inference CPU model_2_2 state_2_2 [[0; 0; 0; 1]; [1; 1; 1]]%Z
       = Ok (state_2_2, preds)
       /\ states_of state_2_2 [0; 0; 0; 1; 1; 1; 1]%Z (ravel preds)
       /\ preds = NdArray (ravel preds).
Proof.
  split; [reflexivity|]. split; [reflexivity|].
  destruct (perform_inference_labels CPU model_2_2 state_2_2
              [[0; 0; 0; 1]; [1; 1; 1]]%Z)
    as (preds & Hrun & Hs & _ & _ & Hnd).
  - simpl. lia.
  - reflexivity.
  - reflexivity.
  - exists preds. split; [exact Hrun|]. split; [exact Hs|].
    apply Hnd. simpl. lia.
Defined.

(** C8 on [model_2_2]: [max_epochs = 0], the default threshold. *)
Lemma train_runs_first_epoch_witness :
  (0 <= 0)%Z
  /\ exists st1 l e,
       run_epoch rational_log CPU model_2_2 [[0; 0; 0; 1]; [1; 1; 1]]%Z
                 state_2_2 None = Ok (st1, l)
       /\ train rational_log CPU model_2_2 [[0; 0; 0; 1]; [1; 1; 1]]%Z 0 0
                prior_draw_2 = Some (Ok e)
       /\ (1 <= epochs e)%Z.
Proof.
  split; [lia|].
  destruct (train_runs_first_epoch rational_log CPU model_2_2
              [[0; 0; 0; 1]; [1; 1; 1]]%Z 0 0%Z prior_draw_2)
    as (_ & _ & H); [lia|].
  destruct H as (st1 & l & e & Hrun & _ & _ & Htrain & Hep);
    try reflexivity; [discriminate|].
  exists st1, l, e. split; [exact Hrun|]. split; [exact Htrain | exact Hep].
Defined.

(** C9 on [model_2_2]: the default threshold and epoch budget, no batch. *)
Lemma train_fails_on_empty_dataset_witness :
  (0 <= 10)%Z
  /\ train rational_log CPU model_2_2 [] 0 10 prior_draw_2
     = Some (Err UnboundLocalError).
Proof.
  split; [lia|].
  apply (train_fails_on_empty_dataset rational_log CPU model_2_2 0 10%Z prior_draw_2).
  lia.
Defined.

(** C4 on [model_2_2]: the batch [[0; 4294967301]], whose second value is
    converted to 5, and the batch [[1; 4294967296]], whose second value is
    converted to 0. *)
Lemma out_of_range_label_reaches_gather_witness :
  shaped_parameters model_2_2 state_2_2 = true
  /\ dataset_in_range model_2_2 (map feed [[0; 4294967301]]%Z) = false
  /\ perform_inference CPU model_2_2 state_2_2 [[0; 4294967301]]%Z
     = perform_inference CPU model_2_2 state_2_2 [[0; 5]]%Z
  /\ perform_inference CPU model_2_2 state_2_2 [[0; 4294967301]]%Z
     = Err InvalidArgumentError
  /\ train rational_log CPU model_2_2 [[0; 4294967301]]%Z 0 10 prior_draw_2
     = Some (Err InvalidArgumentError)
  /\ exists preds,
       perform_inference CPU model_2_2 state_2_2 [[1; 4294967296]]%Z
       = Ok (state_2_2, preds)
       /\ states_of state_2_2 [1; 0]%Z (ravel preds).
Proof.
  split; [reflexivity|]. split; [reflexivity|].
  destruct (out_of_range_label_reaches_gather rational_log model_2_2 state_2_2
              [[0; 4294967301]]%Z 0 10%Z prior_draw_2)
    as (Hfeed & Hsilent & _ & Hinf & Htrain); try reflexivity; try (simpl; lia).
  split; [exact (proj1 (Hfeed CPU [[0; 4294967301]]%Z))|].
  split; [exact Hinf|]. split; [exact Htrain|].
  apply (Hsilent CPU [[1; 4294967296]]%Z); [simpl; lia | reflexivity].
Defined.

(** C5 on the sizes [(-1, 2)] and [(2, 0)]. *)
Lemma construction_fails_only_on_negative_sizes_witness :
  __init__ (-1) 2 draw_2_2 = Err ValueError
  /\ exists m, __init__ 2 0 draw_2_2 = Ok m /\ K m = 0%nat /\ valid_model m = false.
Proof.
  split.
  - apply (construction_fails_only_on_negative_sizes (-1) 2 draw_2_2). lia.
  - destruct (proj2 (construction_fails_only_on_negative_sizes 2 0 draw_2_2))
      as (m & Hm & _ & HK & _ & Hv); [lia | lia |].
    exists m. split; [exact Hm|]. split; [exact HK | exact Hv].
Defined.

(** * Further properties of the training loop *)

Section TrainLoopMore.

Variable ln : Qc -> Qc.
Variable dev : device.
Variable m : MultinomialMixture.
Variable ds : list (list Z).
Variable threshold : Qc.
Variable max_epochs : Z.

Lemma run_training_step_single (st : Variables) (l : Z) :
  run_training_step ln dev m st [l] = Err InvalidArgumentError.
Proof.
  destruct (run_training_step ln dev m st [l]) as [[st' x]|e] eqn:H.
  - exfalso. unfold run_training_step, feed in H. cbn [map] in H.
    destruct (e_step dev m st [int32 l]) as [[num post]|e]; simpl in H;
      discriminate.
  - f_equal. now apply (run_training_step_error ln m dev st [l]).
Qed.

Lemma run_batches_error (batches : list (list Z)) :
  forall st lik e,
    run_batches ln dev m st lik batches = Err e -> e = InvalidArgumentError.
Proof.
  induction batches as [|b batches IH]; intros st lik e H; simpl in H; [discriminate|].
  destruct (run_training_step ln dev m st b) as [[st' l]|e'] eqn:Hstep; simpl in H.
  - now apply IH in H.
  - injection H as <-. now apply (run_training_step_error ln m dev st b).
Qed.

Lemma run_batches_binds_likelihood (batches : list (list Z)) :
  forall st lik st' lik',
    run_batches ln dev m st lik batches = Ok (st', lik') ->
    (batches <> [] \/ lik <> None) -> lik' <> None.
Proof.
  induction batches as [|b batches IH]; intros st lik st' lik' H Hne; simpl in H.
  - injection H as <- <-. destruct Hne; congruence.
  - destruct (run_training_step ln dev m st b) as [[st1 l]|e]; simpl in H;
      [|discriminate].
    apply IH in H; [exact H|]. right. discriminate.
Qed.

Lemma run_batches_single (batches : list (list Z)) :
  (exists b, In b batches /\ length b = 1%nat) ->
  forall st lik, run_batches ln dev m st lik batches = Err InvalidArgumentError.
Proof.
  induction batches as [|b batches IH]; intros (b0 & Hin & Hlen) st lik;
    [contradiction|].
  simpl.
  destruct (run_training_step ln dev m st b) as [[st' l]|e] eqn:Hstep; simpl.
  - apply IH. destruct Hin as [->|Hin]; [|now exists b0].
    exfalso. destruct b0 as [|x [|y b0]]; simpl in Hlen; try lia.
    rewrite run_training_step_single in Hstep. discriminate.
  - f_equal. now apply (run_training_step_error ln m dev st b).
Qed.

(** An epoch on a dataset that is not empty never ends with
    [UnboundLocalError]. *)
Lemma run_epoch_error (st : Variables) (lik : option Qc) (e : error) :
  run_epoch ln dev m ds st lik = Err e ->
  e = InvalidArgumentError \/ (e = UnboundLocalError /\ ds = [] /\ lik = None).
Proof.
  unfold run_epoch.
  destruct (run_batches ln dev m (assign_likelihood st 0) lik ds)
    as [[st1 lik1]|e1] eqn:H; simpl.
  - destruct lik1 as [l|]; [discriminate|]. intros E. injection E as <-. right.
    split; [reflexivity|].
    destruct ds as [|b rest]; [|exfalso].
    + simpl in H. injection H as _ <-. auto.
    + apply run_batches_binds_likelihood in H; [congruence | left; discriminate].
  - intros E. injection E as <-. left. now apply run_batches_error in H.
Qed.

Lemma train_loop_error (fuel : nat) :
  forall st current_epoch old delta lik out e,
    train_loop ln dev m ds threshold max_epochs fuel st current_epoch old delta lik out
    = Some (Err e) ->
    e = InvalidArgumentError \/ (e = UnboundLocalError /\ ds = [] /\ lik = None).
Proof.
  induction fuel as [|fuel IH]; intros st ep old delta lik out e H; [discriminate|].
  simpl in H.
  destruct ((ep <=? max_epochs)%Z && ext_gtb delta threshold); [|discriminate].
  destruct (run_epoch ln dev m ds st lik) as [[st' l]|e'] eqn:Hrun.
  - apply IH in H. destruct H as [H|(_ & _ & H)]; [now left | discriminate].
  - injection H as <-. now apply run_epoch_error in Hrun.
Qed.

(** The epoch counter, the printed lines and the budget. *)
Lemma train_loop_count (fuel : nat) :
  forall st current_epoch old delta lik out e,
    train_loop ln dev m ds threshold max_epochs fuel st current_epoch old delta lik out
    = Some (Ok e) ->
    current_epoch = Z.of_nat (length out) ->
    map fst out = map Z.of_nat (seq 1 (length out)) ->
    epochs e = Z.of_nat (length (printed e))
    /\ map fst (printed e) = map Z.of_nat (seq 1 (length (printed e)))
    /\ (epochs e <= Z.max current_epoch (max_epochs + 1))%Z.
Proof.
  induction fuel as [|fuel IH]; intros st ep old delta lik out e H Hep Hout;
    [discriminate|].
  simpl in H.
  destruct (ep <=? max_epochs)%Z eqn:Hle; simpl in H.
  - destruct (ext_gtb delta threshold).
    + destruct (run_epoch ln dev m ds st lik) as [[st' l]|err]; [|discriminate].
      apply IH in H.
      * destruct H as (H1 & H2 & H3). split; [exact H1|]. split; [exact H2|].
        apply Z.leb_le in Hle. lia.
      * rewrite length_app. simpl. lia.
      * rewrite map_app, length_app, Hout. simpl length.
        rewrite Nat.add_1_r, seq_S, map_app. simpl. f_equal. f_equal.
        rewrite Hep. lia.
    + injection H as <-. simpl. repeat split; auto. lia.
  - injection H as <-. simpl. repeat split; auto. lia.
Qed.

(** Where the loop stops: past the budget, or with a [delta] that is not above
    the threshold; and the invariant holds there. *)
Lemma train_loop_exit (fuel : nat) :
  forall st current_epoch old delta lik out e,
    train_loop ln dev m ds threshold max_epochs fuel st current_epoch old delta lik out
    = Some (Ok e) ->
    loop_invariant old delta out ->
    exists old' delta',
      loop_invariant old' delta' (printed e)
      /\ ((max_epochs < epochs e)%Z \/ ext_gtb delta' threshold = false).
Proof.
  induction fuel as [|fuel IH]; intros st ep old delta lik out e H Hinv;
    [discriminate|].
  simpl in H.
  destruct (ep <=? max_epochs)%Z eqn:Hle; simpl in H.
  - destruct (ext_gtb delta threshold) eqn:Hgt.
    + destruct (run_epoch ln dev m ds st lik) as [[st' l]|err]; [|discriminate].
      apply IH in H; [exact H|].
      destruct Hinv as [(-> & -> & ->)|[(k & l0 & -> & -> & ->)|
                        (pre & k1 & l1 & k2 & l2 & -> & -> & ->)]].
      * right. left. exists (ep + 1)%Z, l. auto.
      * right. right. exists [], k, l0, (ep + 1)%Z, l. auto.
      * right. right. exists (pre ++ [(k1, l1)]), k2, l2, (ep + 1)%Z, l.
        rewrite <- !app_assoc. auto.
    + injection H as <-. simpl. exists old, delta. auto.
  - injection H as <-. simpl. exists old, delta. split; [exact Hinv|].
    left. apply Z.leb_gt in Hle. exact Hle.
Qed.

End TrainLoopMore.

Lemma train_returns (ln : Qc -> Qc) (dev : device) (m : MultinomialMixture)
      (ds : list (list Z)) (threshold : Qc) (max_epochs : Z) (pr : nat -> Qc) :
  valid_model m = true ->
  valid_parameters m (global_variables_initializer m pr) = true ->
  ds <> [] -> dataset_in_range m ds = true -> no_single_example ds = true ->
  exists e, train ln dev m ds threshold max_epochs pr = Some (Ok e)
            /\ invariant m (final e).
Proof.
  intros Hm Hv Hne Hd Hn.
  pose proof (proj1 (valid_model_iff m) Hm) as (HC & _).
  unfold train. apply train_loop_total; auto; [|lia].
  apply (reachable_invariant ln dev m _ Hm). now apply reach_init.
Qed.

(** X1.  A run of [train] that returns normally has run between 0 and
    [max_epochs + 1] epochs (none when [max_epochs < 0]); it has printed one
    line per epoch, numbered 1, 2, ... in order. *)
Theorem train_epoch_budget
        (ln : Qc -> Qc) (dev : device) (m : MultinomialMixture)
        (ds : list (list Z)) (threshold : Qc) (max_epochs : Z) (pr : nat -> Qc)
        (e : TrainEnd) :
  train ln dev m ds threshold max_epochs pr = Some (Ok e) ->
  (0 <= epochs e <= Z.max 0 (max_epochs + 1))%Z
  /\ epochs e = Z.of_nat (length (printed e))
  /\ map fst (printed e) = map Z.of_nat (seq 1 (length (printed e))).
Proof.
  intros H. unfold train in H.
  apply train_loop_count in H; [|reflexivity|reflexivity].
  destruct H as (H1 & H2 & H3). split; [lia|]. split; assumption.
Qed.

(** X2.  With at least one hidden state and one symbol, strictly positive
    initial parameters and a dataset of at least one batch, of in-range
    labels and without a batch of one example alone (so that every numerator
    is strictly positive and the likelihood a number), the threshold cannot
    stop [train] before the end of the second epoch: with [max_epochs >= 1]
    the run returns normally and has run two epochs at least. *)
Theorem train_runs_two_epochs_before_converging
        (ln : Qc -> Qc) (dev : device) (m : MultinomialMixture)
        (ds : list (list Z)) (threshold : Qc) (max_epochs : Z) (pr : nat -> Qc) :
  valid_model m = true ->
  valid_parameters m (global_variables_initializer m pr) = true ->
  ds <> [] -> dataset_in_range m ds = true -> no_single_example ds = true ->
  (1 <= max_epochs)%Z ->
  exists e,
    train ln dev m ds threshold max_epochs pr = Some (Ok e)
    /\ (2 <= epochs e)%Z.
Proof.
  intros Hm Hv Hne Hd Hn Hmax.
  destruct (train_returns ln dev m ds threshold max_epochs pr Hm Hv Hne Hd Hn)
    as (e & H & _).
  exists e. split; [exact H|]. unfold train in H.
  pose proof (train_loop_count _ _ _ _ _ _ _ _ _ _ _ _ _ _ H eq_refl eq_refl)
    as (Hep & _ & _).
  apply train_loop_exit in H; [|left; auto].
  destruct H as (old & delta & Hinv & [Hstop|Hstop]); [lia|].
  destruct Hinv as [(_ & _ & ->)|[(k & l0 & _ & _ & ->)|
                    (pre & k1 & l1 & k2 & l2 & Hp & _ & _)]];
    try discriminate.
  rewrite Hep, Hp, length_app. simpl. lia.
Qed.

(** X3.  Under the same conditions on the model, the initial parameters and
    the dataset, [train] returns normally, and when it has not used up its
    budget ([epochs <= max_epochs]) it stopped on the convergence test: the
    likelihoods of the last two printed lines differ by the threshold at
    most. *)
Theorem train_stops_within_budget_on_convergence
        (ln : Qc -> Qc) (dev : device) (m : MultinomialMixture)
        (ds : list (list Z)) (threshold : Qc) (max_epochs : Z) (pr : nat -> Qc) :
  valid_model m = true ->
  valid_parameters m (global_variables_initializer m pr) = true ->
  ds <> [] -> dataset_in_range m ds = true -> no_single_example ds = true ->
  exists e,
    train ln dev m ds threshold max_epochs pr = Some (Ok e)
    /\ ((epochs e <= max_epochs)%Z ->
        exists pre k1 l1 k2 l2,
          printed e = pre ++ [(k1, l1); (k2, l2)] /\ l2 - l1 <= threshold).
Proof.
  intros Hm Hv Hne Hd Hn.
  destruct (train_returns ln dev m ds threshold max_epochs pr Hm Hv Hne Hd Hn)
    as (e & H & _).
  exists e. split; [exact H|].
  intros Hep. unfold train in H.
  apply train_loop_exit in H; [|left; auto].
  destruct H as (old & delta & Hinv & [Hstop|Hstop]); [lia|].
  destruct Hinv as [(_ & _ & ->)|[(k & l0 & _ & _ & ->)|
                    (pre & k1 & l1 & k2 & l2 & Hp & _ & ->)]];
    try discriminate.
  exists pre, k1, l1, k2, l2. split; [exact Hp|].
  simpl in Hstop. now apply Qc_gtb_false_le.
Qed.

(** X4.  [train] fails with [InvalidArgumentError] or [UnboundLocalError] and
    nothing else, and with [UnboundLocalError] exactly when an epoch is run
    ([max_epochs >= 0]) on a dataset that yields no batch. *)
Theorem train_error_kinds
        (ln : Qc -> Qc) (dev : device) (m : MultinomialMixture)
        (ds : list (list Z)) (threshold : Qc) (max_epochs : Z) (pr : nat -> Qc) :
  (forall e, train ln dev m ds threshold max_epochs pr = Some (Err e) ->
             e = InvalidArgumentError \/ e = UnboundLocalError)
  /\ (train ln dev m ds threshold max_epochs pr = Some (Err UnboundLocalError)
      <-> ds = [] /\ (0 <= max_epochs)%Z).
Proof.
  split; [|split].
  - intros e H. unfold train in H. apply train_loop_error in H. tauto.
  - intros H. assert (H' := H). unfold train in H'.
    apply train_loop_error in H'.
    destruct H' as [H'|(_ & Hds & _)]; [discriminate|]. split; [exact Hds|].
    destruct (Z.le_gt_cases 0 max_epochs) as [Hle|Hgt]; [exact Hle|exfalso].
    unfold train in H. cbn [train_loop] in H.
    replace (0 <=? max_epochs)%Z with false in H
      by (symmetry; apply Z.leb_gt; lia).
    discriminate.
  - intros [-> Hmax]. rewrite train_first_iteration by assumption. reflexivity.
Qed.

(** X5.  A dataset with a batch of exactly one example makes [train] fail with
    [InvalidArgumentError] whenever an epoch is run, on either device and
    whatever the other batches hold. *)
Theorem train_aborts_on_batch_of_one_example
        (ln : Qc -> Qc) (dev : device) (m : MultinomialMixture)
        (ds : list (list Z)) (threshold : Qc) (max_epochs : Z) (pr : nat -> Qc) :
  (0 <= max_epochs)%Z ->
  (exists b, In b ds /\ length b = 1%nat) ->
  train ln dev m ds threshold max_epochs pr = Some (Err InvalidArgumentError).
Proof.
  intros Hmax Hb. unfold train. cbn [train_loop].
  replace (0 <=? max_epochs)%Z with true by (symmetry; now apply Z.leb_le).
  cbn [ext_gtb andb]. unfold run_epoch.
  rewrite run_batches_single by assumption. reflexivity.
Qed.

(** * Further properties of a pass over the batches *)

Lemma reduce_sum_app (a b : vec) : reduce_sum (a ++ b) = reduce_sum a + reduce_sum b.
Proof.
  unfold reduce_sum. induction a as [|x a IH]; simpl; [ring|]. rewrite IH. ring.
Qed.

Lemma reduce_sum_perm (a b : vec) : Permutation a b -> reduce_sum a = reduce_sum b.
Proof.
  unfold reduce_sum.
  induction 1 as [|x a b HP IH|x y a|a b c HP1 IH1 HP2 IH2]; simpl.
  - reflexivity.
  - now rewrite IH.
  - ring.
  - now rewrite IH1.
Qed.

Lemma compute_likelihood_closed (ln : Qc -> Qc) (st : Variables) (batch : list Z) :
  compute_likelihood ln st (map (numerator_row st) batch)
                     (map (responsibility st) batch)
  = likelihood st + reduce_sum (map (example_likelihood ln st) batch).
Proof.
  unfold compute_likelihood, reduce_sum_all. f_equal. f_equal.
  rewrite (map_map (numerator_row st) (map ln)).
  rewrite zip_with_map_same, map_map. reflexivity.
Qed.

Lemma example_likelihood_ext (ln : Qc -> Qc) (st st' : Variables) (l : Z) :
  prior st' = prior st -> emission st' = emission st ->
  example_likelihood ln st' l = example_likelihood ln st l.
Proof.
  intros Hp He. unfold example_likelihood, responsibility, numerator_row.
  now rewrite Hp, He.
Qed.

Lemma run_batches_likelihood (ln : Qc -> Qc) (dev : device) (m : MultinomialMixture)
      (ds : list (list Z)) :
  (0 < C m)%nat ->
  forall st lik st' lik',
    valid_parameters m st = true ->
    shaped_accumulator m (stats st) = true ->
    dataset_in_range m ds = true ->
    no_single_example ds = true ->
    run_batches ln dev m st lik ds = Ok (st', lik') ->
    likelihood st'
    = likelihood st + reduce_sum (map (example_likelihood ln st) (concat ds)).
Proof.
  intros HC0.
  induction ds as [|b ds IH]; intros st lik st' lik' Hv Ha Hd Hn Hrun.
  - simpl in Hrun. injection Hrun as <- _. simpl. unfold reduce_sum. simpl. ring.
  - simpl in Hd. apply andb_true_iff in Hd. destruct Hd as [Hb Hd].
    simpl in Hn. apply andb_true_iff in Hn. destruct Hn as [Hsb Hn].
    simpl in Hrun. rewrite run_training_step_closed in Hrun by assumption.
    simpl in Hrun. rewrite compute_likelihood_closed in Hrun.
    apply IH in Hrun; auto.
    + match type of Hrun with
      | context [map (example_likelihood ln ?s1) (concat ds)] =>
          assert (E : forall l, example_likelihood ln s1 l = example_likelihood ln st l)
            by (intros l; now apply example_likelihood_ext);
          pose proof (map_ext _ _ E (concat ds)) as E2
      end.
      rewrite E2 in Hrun.
      rewrite Hrun. cbn [likelihood concat]. rewrite map_app, reduce_sum_app.
      ring.
    + simpl. now apply (accumulate_examples_shaped m).
Qed.

Lemma nth_add_row (a : mat) (i v : nat) (u : vec) :
  nth v (add_row a i u) [] = if (i =? v)%nat then vadd (nth v a []) u else nth v a [].
Proof.
  revert i v. induction a as [|r a IH]; intros i v.
  - simpl. destruct (i =? v)%nat; destruct v; reflexivity.
  - destruct i as [|i], v as [|v]; simpl; try reflexivity. apply IH.
Qed.

Lemma accumulate_examples_rows (m : MultinomialMixture) (st : Variables)
      (labels : list Z) (v : nat) :
  labels_in_range m labels = true ->
  forall a,
    prior_numerator (accumulate_examples st labels a)
    = fold_left vadd (map (responsibility st) labels) (prior_numerator a)
    /\ nth v (emission_numerator (accumulate_examples st labels a)) []
       = fold_left vadd
                   (map (responsibility st)
                        (filter (fun l => (l =? Z.of_nat v)%Z) labels))
                   (nth v (emission_numerator a) []).
Proof.
  unfold accumulate_examples.
  induction labels as [|l labels IH]; intros Hb a; [split; reflexivity|].
  simpl in Hb. apply andb_true_iff in Hb. destruct Hb as [Hl Hb].
  cbn [fold_left map filter]. destruct (IH Hb (add_example a l (responsibility st l)))
    as [H1 H2].
  split; [exact H1|]. rewrite H2. simpl emission_numerator. rewrite nth_add_row.
  apply in_range_iff in Hl. destruct Hl as [[Hl0 _] _].
  destruct (l =? Z.of_nat v)%Z eqn:E.
  - apply Z.eqb_eq in E. subst l. rewrite Nat2Z.id, Nat.eqb_refl. reflexivity.
  - apply Z.eqb_neq in E.
    replace (Z.to_nat l =? v)%nat with false; [reflexivity|].
    symmetry. apply Nat.eqb_neq. lia.
Qed.

(** X6.  A pass over batches of in-range labels, none of one example alone,
    under strictly positive parameters: it runs to the end, leaves prior and
    emission as they were, and adds to the prior denominator exactly the number
    of examples. *)
Theorem pass_counts_examples
        (ln : Qc -> Qc) (dev : device) (m : MultinomialMixture) (st : Variables)
        (lik : option Qc) (ds : list (list Z)) :
  (0 < C m)%nat ->
  valid_parameters m st = true ->
  shaped_accumulator m (stats st) = true ->
  dataset_in_range m ds = true ->
  no_single_example ds = true ->
  exists st' lik',
    run_batches ln dev m st lik ds = Ok (st', lik')
    /\ prior st' = prior st /\ emission st' = emission st
    /\ prior_denominator (stats st')
       = prior_denominator (stats st) + Qc_of_nat (length (concat ds)).
Proof.
  intros HC Hv Ha Hd Hn.
  destruct (run_batches_closed ln dev m ds st lik HC Hv Ha Hd Hn)
    as (st' & lik' & Hrun & Hp & He & Hs & _).
  exists st', lik'. split; [exact Hrun|]. split; [exact Hp|]. split; [exact He|].
  rewrite Hs. apply (prior_denominator_after_examples m); auto.
  now rewrite <- dataset_in_range_concat.
Qed.

(** X7.  After such a pass (at least one hidden state, strictly positive
    parameters, in-range labels, no batch of one example alone) the prior
    numerator is its old value plus the posterior rows of all examples, and
    row [v] of the emission numerator is its old value plus the posterior
    rows of the examples whose label is [v]: the scatter is a sum grouped by
    symbol. *)
Theorem pass_sums_posteriors_by_symbol
        (ln : Qc -> Qc) (dev : device) (m : MultinomialMixture) (st : Variables)
        (lik : option Qc) (ds : list (list Z)) (v : nat) :
  (0 < C m)%nat ->
  valid_parameters m st = true ->
  shaped_accumulator m (stats st) = true ->
  dataset_in_range m ds = true ->
  no_single_example ds = true ->
  exists st' lik',
    run_batches ln dev m st lik ds = Ok (st', lik')
    /\ prior_numerator (stats st')
       = fold_left vadd (map (responsibility st) (concat ds))
                   (prior_numerator (stats st))
    /\ nth v (emission_numerator (stats st')) []
       = fold_left vadd
                   (map (responsibility st)
                        (filter (fun l => (l =? Z.of_nat v)%Z) (concat ds)))
                   (nth v (emission_numerator (stats st)) []).
Proof.
  intros HC Hv Ha Hd Hn.
  destruct (run_batches_closed ln dev m ds st lik HC Hv Ha Hd Hn)
    as (st' & lik' & Hrun & _ & _ & Hs & _).
  exists st', lik'. split; [exact Hrun|]. rewrite Hs.
  apply (accumulate_examples_rows m). now rewrite <- dataset_in_range_concat.
Qed.

(** X8.  The likelihood Variable after such a pass (at least one hidden
    state, strictly positive parameters, in-range labels, no batch of one
    example alone) is its value before plus the sum over the examples of
    [sum_c posterior * log(numerator)]; so two datasets holding the same
    observations, however batched and ordered, give the same likelihood. *)
Theorem pass_likelihood_independent_of_batching
        (ln : Qc -> Qc) (dev : device) (m : MultinomialMixture) (st : Variables)
        (ds1 ds2 : list (list Z)) :
  (0 < C m)%nat ->
  valid_parameters m st = true ->
  shaped_accumulator m (stats st) = true ->
  dataset_in_range m ds1 = true ->
  no_single_example ds1 = true ->
  no_single_example ds2 = true ->
  Permutation (concat ds1) (concat ds2) ->
  exists st1 lik1 st2 lik2,
    run_batches ln dev m st None ds1 = Ok (st1, lik1)
    /\ run_batches ln dev m st None ds2 = Ok (st2, lik2)
    /\ likelihood st1
       = likelihood st + reduce_sum (map (example_likelihood ln st) (concat ds1))
    /\ likelihood st2 = likelihood st1.
Proof.
  intros HC Hv Ha Hd1 Hn1 Hn2 HP.
  assert (Hd2 : dataset_in_range m ds2 = true).
  { rewrite dataset_in_range_concat in *. unfold labels_in_range in *.
    rewrite forallb_forall in *. intros l Hl. apply Hd1.
    eapply Permutation_in; [apply Permutation_sym; exact HP | exact Hl]. }
  destruct (run_batches_closed ln dev m ds1 st None HC Hv Ha Hd1 Hn1)
    as (st1 & lik1 & Hr1 & _).
  destruct (run_batches_closed ln dev m ds2 st None HC Hv Ha Hd2 Hn2)
    as (st2 & lik2 & Hr2 & _).
  exists st1, lik1, st2, lik2. split; [exact Hr1|]. split; [exact Hr2|].
  pose proof (run_batches_likelihood ln dev m ds1 HC _ _ _ _ Hv Ha Hd1 Hn1 Hr1) as H1.
  pose proof (run_batches_likelihood ln dev m ds2 HC _ _ _ _ Hv Ha Hd2 Hn2 Hr2) as H2.
  split; [exact H1|]. rewrite H1, H2. f_equal.
  apply reduce_sum_perm. apply Permutation_map. now apply Permutation_sym.
Qed.

(** * The initial values and the invariant of the parameters *)

Lemma map_nth_seq (l : vec) :
  map (fun v => nth v l 0) (seq 0 (length l)) = l.
Proof.
  apply (nth_ext _ _ 0 0).
  - now rewrite length_map, length_seq.
  - intros n Hn. rewrite length_map, length_seq in Hn.
    rewrite (nth_map_lt (fun v => nth v l 0) (seq 0 (length l)) n 0%nat 0)
      by now rewrite length_seq.
    now rewrite seq_nth.
Qed.

Lemma normalise_sum (v : vec) :
  v <> [] -> all_pos v -> reduce_sum (normalise v) = 1.
Proof.
  intros Hne Hv. unfold normalise. rewrite reduce_sum_scale.
  unfold Qcdiv. apply Qcmult_inv_r. apply Qc_pos_neq. now apply reduce_sum_pos.
Qed.

Lemma normalise_pos (v : vec) : v <> [] -> all_pos v -> all_pos (normalise v).
Proof.
  intros Hne Hv. unfold normalise. apply all_pos_scale; [exact Hv|].
  now apply reduce_sum_pos.
Qed.

Lemma all_pos_map_seq (f : nat -> Qc) (n : nat) :
  forallb (fun i => Qc_gtb (f i) 0) (seq 0 n) = true -> all_pos (map f (seq 0 n)).
Proof.
  intros H. rewrite forallb_forall in H. unfold all_pos. apply Forall_map.
  apply Forall_forall. intros i Hi. apply Qc_gtb_lt. now apply H.
Qed.

Lemma map_seq_nonempty {A : Type} (f : nat -> A) (n : nat) :
  (0 < n)%nat -> map f (seq 0 n) <> [].
Proof. destruct n; [lia | discriminate]. Qed.

Lemma initial_emission_column (k c : nat) (draw : nat -> nat -> Qc) (i : nat) :
  (i < c)%nat ->
  column (initial_emission k c draw) i = normalise (map (draw i) (seq 0 k)).
Proof.
  intros Hi. unfold column, initial_emission. rewrite map_map.
  transitivity (map (fun v => nth v (normalise (map (draw i) (seq 0 k))) 0)
                    (seq 0 k)).
  - apply map_ext. intros v.
    rewrite (nth_map_lt _ (seq 0 c) i 0%nat 0) by now rewrite length_seq.
    now rewrite seq_nth.
  - pose proof (map_nth_seq (normalise (map (draw i) (seq 0 k)))) as H.
    unfold normalise at 2 in H. now rewrite !length_map, length_seq in H.
Qed.

Lemma initial_emission_pos (k c : nat) (draw : nat -> nat -> Qc) :
  (0 < k)%nat ->
  forallb (fun i => forallb (fun v => Qc_gtb (draw i v) 0) (seq 0 k)) (seq 0 c) = true ->
  Forall all_pos (initial_emission k c draw).
Proof.
  intros Hk H. rewrite forallb_forall in H.
  unfold initial_emission. apply Forall_map. apply Forall_forall. intros v Hv.
  unfold all_pos. apply Forall_map. apply Forall_forall. intros i Hi.
  apply in_seq in Hv.
  apply all_pos_nth.
  - apply normalise_pos; [now apply map_seq_nonempty|].
    apply all_pos_map_seq. now apply H.
  - unfold normalise. rewrite !length_map, length_seq. lia.
Qed.

Lemma initial_state_valid (c k : nat) (s : Qc) (draw : nat -> nat -> Qc)
      (pr : nat -> Qc) :
  (0 < c)%nat -> (0 < k)%nat ->
  positive_draws c k draw pr = true ->
  valid_parameters
    {| C := c; K := k; smoothing := s; emission_init := initial_emission k c draw |}
    (global_variables_initializer
       {| C := c; K := k; smoothing := s; emission_init := initial_emission k c draw |}
       pr) = true.
Proof.
  intros HC HK Hd. unfold positive_draws in Hd.
  apply andb_true_iff in Hd. destruct Hd as [Hdraw Hpr].
  apply valid_parameters_iff. cbn [C K global_variables_initializer prior
    emission emission_init].
  pose proof (initial_emission_shaped k c draw) as Hs.
  apply shaped_iff in Hs. destruct Hs as [Hs1 Hs2].
  split; [unfold normalise; now rewrite !length_map, length_seq|].
  split; [exact Hs1|]. split; [exact Hs2|]. split.
  - apply normalise_pos; [now apply map_seq_nonempty | now apply all_pos_map_seq].
  - now apply initial_emission_pos.
Qed.

(** X9.  With [c >= 1] hidden states, [k >= 1] symbols and strictly positive
    random draws, the constructor succeeds and the initializer gives
    parameters that are probability distributions: strictly positive entries,
    a prior that sums to 1 and an emission matrix whose columns each sum
    to 1. *)
Theorem initial_parameters_are_distributions
        (c k : Z) (draw : nat -> nat -> Qc) (pr : nat -> Qc) :
  (1 <= c)%Z -> (1 <= k)%Z ->
  positive_draws (Z.to_nat c) (Z.to_nat k) draw pr = true ->
  exists m,
    __init__ c k draw = Ok m
    /\ valid_model m = true
    /\ valid_parameters m (global_variables_initializer m pr) = true
    /\ reduce_sum (prior (global_variables_initializer m pr)) = 1
    /\ forall i, (i < C m)%nat ->
         reduce_sum (column (emission (global_variables_initializer m pr)) i) = 1.
Proof.
  intros Hc Hk Hd. pose proof Hd as Hd0. unfold positive_draws in Hd.
  apply andb_true_iff in Hd. destruct Hd as [Hdraw Hpr].
  unfold __init__.
  replace ((c <? 0)%Z || (k <? 0)%Z) with false
    by (symmetry; apply orb_false_iff; rewrite !Z.ltb_ge; lia).
  eexists. split; [reflexivity|].
  assert (HC : (0 < Z.to_nat c)%nat) by lia.
  assert (HK : (0 < Z.to_nat k)%nat) by lia.
  assert (Hp : all_pos (map pr (seq 0 (Z.to_nat c))))
    by now apply all_pos_map_seq.
  split; [|split; [|split]].
  - apply valid_model_iff. cbn [C K smoothing]. split; [exact HC|].
    split; [exact HK|]. reflexivity.
  - now apply initial_state_valid.
  - cbn [global_variables_initializer prior C].
    apply normalise_sum; [now apply map_seq_nonempty | exact Hp].
  - cbn [global_variables_initializer emission emission_init C].
    intros i Hi. rewrite initial_emission_column by exact Hi.
    apply normalise_sum; [now apply map_seq_nonempty|].
    apply all_pos_map_seq. rewrite forallb_forall in Hdraw. apply Hdraw.
    apply in_seq. lia.
Qed.

(** X10.  In every state of the session reachable from an initializer with
    strictly positive parameters, prior and emission keep their shapes and are
    strictly positive, so is every entry of the accumulator, and the numerator
    of every in-range label is strictly positive (the logarithm in the
    likelihood is never taken at 0). *)
Theorem reachable_parameters_stay_positive
        (ln : Qc -> Qc) (dev : device) (m : MultinomialMixture) (st : Variables) :
  valid_model m = true ->
  reachable ln dev m st ->
  valid_parameters m st = true
  /\ positive_accumulator (stats st)
  /\ forall l, in_range (K m) l = true -> all_pos (numerator_row st l).
Proof.
  intros Hm Hr.
  destruct (reachable_invariant ln dev m st Hm Hr) as (Hv & _ & Hpos & _).
  split; [exact Hv|]. split; [exact Hpos|].
  intros l Hl. now apply (numerator_row_pos m).
Qed.

(** * The range of the inferred states *)

Lemma states_of_bound (m : MultinomialMixture) (st : Variables) (labels : list Z)
      (states : list nat) :
  (0 < C m)%nat ->
  shaped_parameters m st = true ->
  labels_in_range m labels = true ->
  states_of st labels states ->
  length states = length labels /\ Forall (fun i => (i < C m)%nat) states.
Proof.
  intros HC Hs Hb H. unfold states_of in H.
  induction H as [|l i labels states Hli H IH]; [split; [reflexivity|constructor]|].
  simpl in Hb. apply andb_true_iff in Hb. destruct Hb as [Hl Hb].
  destruct (IH Hb) as [IH1 IH2]. split; [simpl; now rewrite IH1|].
  constructor; [|exact IH2].
  destruct Hli as (Hi & _).
  now rewrite (numerator_row_length_shaped m st HC Hs l Hl) in Hi.
Qed.

Lemma perform_inference_in_range (dev : device) (m : MultinomialMixture)
      (st : Variables) (ds : list (list Z)) :
  (0 < C m)%nat ->
  shaped_parameters m st = true ->
  dataset_in_range m ds = true ->
  exists preds,
    perform_inference dev m st ds = Ok (st, preds)
    /\ length (ravel preds) = length (concat ds)
    /\ Forall (fun i => (i < C m)%nat) (ravel preds)
    /\ ((2 <= length ds)%nat -> preds = NdArray (ravel preds)).
Proof.
  intros HC Hs Hd. unfold perform_inference.
  destruct (inference_loop_closed dev m st HC Hs ds Hd PyNone)
    as (preds & new & Hrun & HR & Hrav & _ & _).
  simpl in Hrav. subst new. exists preds. split; [exact Hrun|].
  destruct (states_of_bound m st (concat ds) (ravel preds) HC Hs) as [H1 H2];
    [now rewrite <- dataset_in_range_concat | exact HR |].
  split; [exact H1|]. split; [exact H2|].
  intros Hlen. destruct ds as [|b1 [|b2 ds]]; simpl in Hlen; try lia.
  simpl in Hd. apply andb_true_iff in Hd. destruct Hd as [Hb1 Hd].
  destruct (run_inference_closed dev m st HC Hs b1 Hb1) as (a & Ha & _).
  cbn [inference_loop] in Hrun. rewrite Ha in Hrun. cbn [bind] in Hrun.
  destruct (inference_loop_closed dev m st HC Hs (b2 :: ds) Hd (PyList [a]))
    as (preds' & new & Hrun' & _ & _ & _ & Hnd).
  cbn [inference_loop] in Hrun'. rewrite Hrun' in Hrun.
  injection Hrun as <-. rewrite Hnd by discriminate. reflexivity.
Qed.

(** X11.  With at least one hidden state, parameters of the model's shapes and
    labels in range, [perform_inference] returns as many states as there are
    examples, and every one of them is a hidden state of the model: a number
    in [[0, C)]. *)
Theorem inferred_states_are_hidden_states
        (dev : device) (m : MultinomialMixture) (st : Variables) (ds : list (list Z)) :
  (0 < C m)%nat ->
  shaped_parameters m st = true ->
  dataset_in_range m ds = true ->
  exists preds,
    perform_inference dev m st ds = Ok (st, preds)
    /\ length (ravel preds) = length (concat ds)
    /\ Forall (fun i => (i < C m)%nat) (ravel preds).
Proof.
  intros HC Hs Hd.
  destruct (perform_inference_in_range dev m st ds HC Hs Hd)
    as (preds & H1 & H2 & H3 & _).
  exists preds. auto.
Qed.

(** * Model selection *)

Section ProcessResultsProofs.

Import KFold.

Variable A : Type.
Variable read : nat -> option (config_dict A).

Lemma Qc_eqb_eq (x y : Qc) : Qc_eqb x y = true <-> x = y.
Proof.
  unfold Qc_eqb. rewrite (Qceq_alt x y). destruct (x ?= y); split; congruence.
Qed.

Lemma visit_selected (n : nat) (s : selection A) :
  selected A read n s -> selected A read (S n) (visit A read s (S n)).
Proof.
  unfold selected at 1. intros (Hstd & Hnn & Hmax & Hbest). unfold visit.
  destruct (read (S n)) as [d|] eqn:Hread.
  - destruct (Qc_gtb (avg_VL_score d) (best_avg_vl s)
              || Qc_eqb (best_avg_vl s) (avg_VL_score d)
                 && Qc_gtb (best_std_vl s) (std_VL_score d)) eqn:Hc.
    + assert (Hle : best_avg_vl s <= avg_VL_score d).
      { apply orb_true_iff in Hc. destruct Hc as [Hc|Hc].
        - apply Qc_gtb_lt in Hc. now apply Qclt_le_weak.
        - apply andb_true_iff in Hc. destruct Hc as [Hc _].
          apply Qc_eqb_eq in Hc. rewrite Hc. apply Qcle_refl. }
      assert (Hq : qualifies A d).
      { apply orb_true_iff in Hc. destruct Hc as [Hc|Hc].
        - apply Qc_gtb_lt in Hc. left.
          now apply Qcle_lt_trans with (y := best_avg_vl s).
        - apply andb_true_iff in Hc. destruct Hc as [Hc1 Hc2].
          apply Qc_eqb_eq in Hc1. apply Qc_gtb_lt in Hc2. rewrite Hstd in Hc2.
          rewrite Hc1 in Hnn. destruct (Qcle_lt_or_eq _ _ Hnn) as [H|H].
          + now left.
          + right. split; [now symmetry | exact Hc2]. }
      unfold selected. cbn [best_avg_vl best_std_vl best_i best_config].
      split; [exact Hstd|]. split; [now apply Qcle_trans with (y := best_avg_vl s)|].
      split.
      * intros j d' Hj Hd'. destruct (Nat.eq_dec j (S n)) as [->|Hne].
        -- rewrite Hread in Hd'. injection Hd' as <-. apply Qcle_refl.
        -- apply Qcle_trans with (y := best_avg_vl s); [|exact Hle].
           apply (Hmax j d'); [lia | exact Hd'].
      * split; [lia|]. split; [exact Hread|]. split; [reflexivity | exact Hq].
    + apply orb_false_iff in Hc. destruct Hc as [Hc1 Hc2].
      apply Qc_gtb_false_le in Hc1.
      unfold selected. split; [exact Hstd|]. split; [exact Hnn|]. split.
      * intros j d' Hj Hd'. destruct (Nat.eq_dec j (S n)) as [->|Hne].
        -- rewrite Hread in Hd'. injection Hd' as <-. exact Hc1.
        -- apply (Hmax j d'); [lia | exact Hd'].
      * destruct (best_i s) as [i|], (best_config s) as [d0|]; try contradiction.
        -- destruct Hbest as (Hi & H). split; [lia | exact H].
        -- destruct Hbest as [H0 Hnq]. split; [exact H0|].
           intros j d' Hj Hd'. destruct (Nat.eq_dec j (S n)) as [->|Hne].
           ++ rewrite Hread in Hd'. injection Hd' as <-.
              intros [Hq|[Hq1 Hq2]].
              ** rewrite H0 in Hc1. exact (Qcle_not_lt _ _ Hc1 Hq).
              ** apply andb_false_iff in Hc2. destruct Hc2 as [Hc2|Hc2].
                 --- assert (E : Qc_eqb (best_avg_vl s) (avg_VL_score d) = true)
                       by (apply Qc_eqb_eq; congruence).
                     congruence.
                 --- assert (E : Qc_gtb (best_std_vl s) (std_VL_score d) = true)
                       by (apply Qc_gtb_lt; now rewrite Hstd).
                     congruence.
           ++ apply (Hnq j d'); [lia | exact Hd'].
  - unfold selected. split; [exact Hstd|]. split; [exact Hnn|]. split.
    + intros j d' Hj Hd'. destruct (Nat.eq_dec j (S n)) as [->|Hne];
        [congruence|]. apply (Hmax j d'); [lia | exact Hd'].
    + destruct (best_i s) as [i|], (best_config s) as [d0|]; try contradiction.
      * destruct Hbest as (Hi & H). split; [lia | exact H].
      * destruct Hbest as [H0 Hnq]. split; [exact H0|].
        intros j d' Hj Hd'. destruct (Nat.eq_dec j (S n)) as [->|Hne];
          [congruence|]. apply (Hnq j d'); [lia | exact Hd'].
Qed.

Lemma fold_visit_selected (n : nat) :
  selected A read n (fold_left (visit A read) (seq 1 n) (initial_selection A)).
Proof.
  induction n as [|n IH].
  - simpl. unfold selected. simpl. split; [reflexivity|].
    split; [apply Qcle_refl|]. split; [intros; lia|]. split; [reflexivity|].
    intros; lia.
  - rewrite seq_S, fold_left_app. simpl. now apply visit_selected.
Qed.

End ProcessResultsProofs.

Section ProcessResultsTheorems.

Import KFold.

Variable A : Type.
Variable read : nat -> option (config_dict A).

(** X12.  The configuration [process_results] returns is one of the readable
    configurations [1 .. no_configurations]; its average validation score is
    not negative and no readable configuration has a higher one. *)
Theorem process_results_returns_a_best_average (n : nat) (d : config_dict A) :
  process_results A read n = Ok d ->
  exists i,
    (1 <= i <= n)%nat /\ read i = Some d
    /\ 0 <= avg_VL_score d
    /\ forall j d', (1 <= j <= n)%nat -> read j = Some d' ->
                    avg_VL_score d' <= avg_VL_score d.
Proof.
  unfold process_results. intros H.
  destruct (fold_visit_selected A read n) as (_ & Hnn & Hmax & Hbest).
  destruct (best_i _) as [i|], (best_config _) as [d0|]; try discriminate.
  injection H as <-. destruct Hbest as (Hi & Hread & Havg & _).
  exists i. rewrite <- Havg. auto.
Qed.

(** X13.  [process_results] fails, with [UnboundLocalError] at the line that
    prints the winner, exactly when no readable configuration has a positive
    average, or an average of 0 with a standard deviation below 100: in
    particular when there is no configuration or no results file can be
    read. *)
Theorem process_results_fails_iff (n : nat) :
  process_results A read n = Err UnboundLocalError
  <-> forall j d, (1 <= j <= n)%nat -> read j = Some d -> ~ qualifies A d.
Proof.
  unfold process_results.
  destruct (fold_visit_selected A read n) as (_ & _ & _ & Hbest).
  destruct (best_i _) as [i|], (best_config _) as [d0|]; try contradiction.
  - destruct Hbest as (Hi & Hread & _ & Hq). split; [discriminate|].
    intros H. exfalso. exact (H i d0 Hi Hread Hq).
  - destruct Hbest as [_ Hnq]. split; [intros _; exact Hnq | reflexivity].
Qed.

(** X14.  [best_std_vl] is never updated, so a tie in the average is not
    decided by the standard deviations: when the last configuration is
    readable, has a standard deviation below 100 and an average that is not
    negative and not below that of any earlier one, it is the one returned,
    also when an earlier configuration has the same average and a smaller
    standard deviation. *)
Theorem process_results_takes_the_last_of_the_best (n : nat) (d : config_dict A) :
  read (S n) = Some d ->
  0 <= avg_VL_score d ->
  std_VL_score d < Q2Qc (100 # 1) ->
  (forall j d', (1 <= j <= n)%nat -> read j = Some d' ->
                avg_VL_score d' <= avg_VL_score d) ->
  process_results A read (S n) = Ok d.
Proof.
  intros Hread Hnn Hstd Hmax. unfold process_results.
  rewrite seq_S, fold_left_app. cbn [fold_left Nat.add].
  destruct (fold_visit_selected A read n) as (Hs & _ & _ & Hbest).
  set (s := fold_left (visit A read) (seq 1 n) (initial_selection A)) in *.
  assert (Hle : best_avg_vl s <= avg_VL_score d).
  { destruct (best_i s) as [i|], (best_config s) as [d0|]; try contradiction.
    - destruct Hbest as (Hi & Hr & Havg & _). rewrite Havg. now apply (Hmax i).
    - destruct Hbest as [-> _]. exact Hnn. }
  unfold visit. rewrite Hread.
  replace (Qc_gtb (avg_VL_score d) (best_avg_vl s)
           || Qc_eqb (best_avg_vl s) (avg_VL_score d)
              && Qc_gtb (best_std_vl s) (std_VL_score d)) with true; [reflexivity|].
  symmetry. apply orb_true_iff.
  destruct (Qcle_lt_or_eq _ _ Hle) as [Hlt|Heq].
  - left. now apply Qc_gtb_lt.
  - right. apply andb_true_iff. split; [now apply Qc_eqb_eq|].
    apply Qc_gtb_lt. now rewrite Hs.
Qed.

End ProcessResultsTheorems.

(** * The base layer of the script *)

Lemma batches_of_nil (fuel n : nat) : batches_of fuel n [] = [].
Proof. destruct fuel; reflexivity. Qed.

Lemma batches_of_concat (n : nat) :
  (0 < n)%nat ->
  forall fuel X, (length X <= fuel)%nat -> concat (batches_of fuel n X) = X.
Proof.
  intros Hn. induction fuel as [|fuel IH]; intros X HX.
  - destruct X; [reflexivity | simpl in HX; lia].
  - destruct X as [|x X]; [reflexivity|].
    cbn [batches_of concat]. rewrite IH.
    + apply firstn_skipn.
    + rewrite length_skipn. cbn [length] in *. lia.
Qed.

Lemma batches_of_in_range (m : MultinomialMixture) (n : nat) :
  forall fuel X,
    labels_in_range m X = true ->
    dataset_in_range m (batches_of fuel n X) = true.
Proof.
  induction fuel as [|fuel IH]; intros X HX; [reflexivity|].
  destruct X as [|x X]; [reflexivity|].
  cbn [batches_of]. unfold dataset_in_range, labels_in_range in *.
  rewrite <- (firstn_skipn n (x :: X)), forallb_app in HX.
  apply andb_true_iff in HX. destruct HX as [H1 H2].
  cbn [forallb]. rewrite H1. cbn [andb]. now apply IH.
Qed.

Lemma batches_of_no_single (n : nat) :
  (2 <= n)%nat ->
  forall fuel X,
    (length X <= fuel)%nat ->
    no_single_example (batches_of fuel n X) = negb (length X mod n =? 1)%nat.
Proof.
  intros Hn. induction fuel as [|fuel IH]; intros X HX.
  - destruct X; [|simpl in HX; lia]. simpl. rewrite Nat.Div0.mod_0_l. reflexivity.
  - destruct X as [|x X]; [simpl; now rewrite Nat.Div0.mod_0_l|].
    cbn [batches_of no_single_example forallb].
    fold (no_single_example (batches_of fuel n (skipn n (x :: X)))).
    set (L := length (x :: X)) in *.
    destruct (Nat.le_gt_cases L n) as [Hle|Hgt].
    + rewrite firstn_all2, skipn_all2, batches_of_nil by exact Hle.
      cbn [no_single_example forallb]. rewrite andb_true_r. unfold not_single.
      fold L. f_equal.
      destruct (Nat.eq_dec L n) as [E|E].
      * rewrite E, Nat.Div0.mod_same.
        destruct (Nat.eqb_spec n 1); [lia | reflexivity].
      * rewrite Nat.mod_small by lia. reflexivity.
    + rewrite IH by (rewrite length_skipn; fold L; lia).
      rewrite length_skipn. fold L.
      replace (not_single (firstn n (x :: X))) with true.
      * cbn [andb]. f_equal. f_equal.
        replace L with ((L - n) + 1 * n)%nat at 2 by lia.
        now rewrite Nat.Div0.mod_add.
      * unfold not_single. rewrite length_firstn. fold L.
        destruct (Nat.eqb_spec (Nat.min n L) 1); [lia | reflexivity].
Qed.

Lemma batches_of_length (n : nat) (fuel : nat) (X : list Z) :
  (0 < n)%nat -> (length X <= fuel)%nat ->
  (X <> [] -> batches_of fuel n X <> [])
  /\ ((n < length X)%nat -> (2 <= length (batches_of fuel n X))%nat).
Proof.
  intros Hn HX. split.
  - intros Hne. destruct X as [|x X]; [congruence|].
    destruct fuel; [simpl in HX; lia | discriminate].
  - intros HL. destruct X as [|x X]; [simpl in HL; lia|].
    destruct fuel as [|fuel]; [simpl in HX; lia|].
    cbn [batches_of length].
    assert (Hs : (0 < length (skipn n (x :: X)) <= fuel)%nat)
      by (rewrite length_skipn; cbn [length] in *; lia).
    destruct (skipn n (x :: X)) as [|y Y]; [simpl in Hs; lia|].
    destruct fuel; [simpl in Hs; lia|]. simpl. lia.
Qed.

Lemma no_single_example_false (ds : list (list Z)) :
  no_single_example ds = false -> exists b, In b ds /\ length b = 1%nat.
Proof.
  intros H. apply forallb_false in H. destruct H as (b & Hin & Hb).
  exists b. split; [exact Hin|]. unfold not_single in Hb.
  apply negb_false_iff in Hb. now apply Nat.eqb_eq.
Qed.

(** X15.  When the number of vertices leaves a remainder of 1 modulo the batch
    size (at least 2; the script's is 2000), the last batch holds one example
    and the base layer fails with [InvalidArgumentError] in its first epoch,
    whatever the data. *)
Theorem base_layer_fails_on_remainder_one
        (ln : Qc -> Qc) (dev : device) (c k : Z) (batch_size : nat) (X : list Z)
        (draw : nat -> nat -> Qc) (pr : nat -> Qc) :
  (0 <= c)%Z -> (0 <= k)%Z -> (2 <= batch_size)%nat ->
  (length X mod batch_size = 1)%nat ->
  base_layer ln dev c k batch_size X draw pr = Some (Err InvalidArgumentError).
Proof.
  intros Hc Hk Hn Hmod. unfold base_layer, dataset_batch.
  destruct batch_size as [|n]; [lia|].
  unfold __init__.
  replace ((c <? 0)%Z || (k <? 0)%Z) with false
    by (symmetry; apply orb_false_iff; rewrite !Z.ltb_ge; lia).
  assert (Hs : exists b, In b (batches_of (length X) (S n) X) /\ length b = 1%nat).
  { apply no_single_example_false.
    rewrite batches_of_no_single by lia. rewrite Hmod. reflexivity. }
  unfold train. cbn [train_loop Z.leb Z.compare ext_gtb andb].
  unfold run_epoch. rewrite run_batches_single by exact Hs. reflexivity.
Qed.

(** X16.  With [c >= 1] hidden states, [k >= 1] symbols, strictly positive
    draws, a batch size of 2 at least, and a sequence of vertices' labels that
    is not empty, has all its labels in [[0, k)] and does not leave a
    remainder of 1 modulo the batch size, the base layer returns normally: one
    hidden state in [[0, c)] per vertex, as a flat array when there is more
    than one batch. *)
Theorem base_layer_returns_a_state_per_vertex
        (ln : Qc -> Qc) (dev : device) (c k : Z) (batch_size : nat) (X : list Z)
        (draw : nat -> nat -> Qc) (pr : nat -> Qc) :
  (1 <= c)%Z -> (1 <= k)%Z -> (2 <= batch_size)%nat ->
  positive_draws (Z.to_nat c) (Z.to_nat k) draw pr = true ->
  X <> [] ->
  forallb (in_range (Z.to_nat k)) X = true ->
  (length X mod batch_size <> 1)%nat ->
  exists st preds,
    base_layer ln dev c k batch_size X draw pr = Some (Ok (st, preds))
    /\ length (ravel preds) = length X
    /\ Forall (fun i => (i < Z.to_nat c)%nat) (ravel preds)
    /\ ((batch_size < length X)%nat -> preds = NdArray (ravel preds)).
Proof.
  intros Hc Hk Hn Hd Hne Hr Hmod. unfold base_layer, dataset_batch.
  destruct batch_size as [|n]; [lia|].
  unfold __init__.
  replace ((c <? 0)%Z || (k <? 0)%Z) with false
    by (symmetry; apply orb_false_iff; rewrite !Z.ltb_ge; lia).
  set (mm := {| C := Z.to_nat c; K := Z.to_nat k;
                smoothing := Q2Qc (1 # 10000000);
                emission_init := initial_emission (Z.to_nat k) (Z.to_nat c) draw |}).
  set (ds := batches_of (length X) (S n) X).
  assert (HC : (0 < C mm)%nat) by (simpl; lia).
  assert (Hm : valid_model mm = true).
  { apply valid_model_iff. cbn [mm C K smoothing]. split; [lia|].
    split; [lia | reflexivity]. }
  assert (Hv : valid_parameters mm (global_variables_initializer mm pr) = true)
    by (apply initial_state_valid; auto; lia).
  assert (Hds : dataset_in_range mm ds = true)
    by (apply batches_of_in_range; exact Hr).
  assert (Hns : no_single_example ds = true).
  { unfold ds. rewrite batches_of_no_single by lia.
    apply negb_true_iff. now apply Nat.eqb_neq. }
  destruct (batches_of_length (S n) (length X) X) as [Hnil Hlen]; [lia | lia |].
  destruct (train_returns ln dev mm ds 0 10 pr Hm Hv (Hnil Hne) Hds Hns)
    as (e & He & Hinv).
  rewrite He.
  destruct Hinv as (Hvf & _).
  destruct (perform_inference_in_range dev mm (final e) ds HC
              (valid_parameters_shaped mm (final e) Hvf) Hds)
    as (preds & Hrun & H1 & H2 & H3).
  exists (final e), preds. rewrite Hrun. split; [reflexivity|].
  unfold ds in H1. rewrite batches_of_concat in H1 by lia.
  split; [exact H1|]. split; [exact H2|].
  intros HL. apply H3. now apply Hlen.
Qed.

(** * What a run of [train] leaves behind *)

Section TrainPostcondition.

Variable ln : Qc -> Qc.
Variable dev : device.
Variable m : MultinomialMixture.
Variable ds : list (list Z).
Variable threshold : Qc.
Variable max_epochs : Z.
Hypothesis HC : (0 < C m)%nat.
Hypothesis Hne : ds <> [].
Hypothesis Hd : dataset_in_range m ds = true.
Hypothesis Hn : no_single_example ds = true.

Lemma run_epoch_distributions (st : Variables) (lik : option Qc) :
  invariant m st ->
  exists st' l,
    run_epoch ln dev m ds st lik = Ok (st', l)
    /\ invariant m st' /\ distributions m st'.
Proof.
  intros Hinv.
  destruct (run_epoch_invariant ln dev m ds st lik HC Hne Hd Hn Hinv)
    as (st1 & st' & l & _ & Hrun & Hst' & _ & Hinv').
  exists st', l. split; [exact Hrun|]. split; [exact Hinv'|].
  destruct Hinv' as (_ & Ha & Hpos & Hbal). subst st'. simpl in Ha, Hpos, Hbal.
  split; simpl.
  - now apply (update_prior_sum m).
  - intros c Hc. now apply (update_emission_column_sum m).
Qed.

Lemma train_loop_distributions (fuel : nat) :
  forall st current_epoch old delta lik out,
    invariant m st -> distributions m st ->
    (Z.to_nat (max_epochs + 1 - current_epoch) < fuel)%nat ->
    exists e,
      train_loop ln dev m ds threshold max_epochs fuel st current_epoch old delta
                 lik out = Some (Ok e)
      /\ invariant m (final e) /\ distributions m (final e).
Proof.
  induction fuel as [|fuel IH]; intros st ep old delta lik out Hinv Hdist Hf; [lia|].
  simpl. destruct (ep <=? max_epochs)%Z eqn:Hep; simpl.
  - destruct (ext_gtb delta threshold).
    + destruct (run_epoch_distributions st lik Hinv) as (st' & l & Hrun & Hinv' & Hd').
      rewrite Hrun. apply IH; auto. apply Z.leb_le in Hep. lia.
    + eexists. split; [reflexivity|]. split; assumption.
  - eexists. split; [reflexivity|]. split; assumption.
Qed.

End TrainPostcondition.

(** X17.  When an epoch is run ([max_epochs >= 0]) on a dataset that is not
    empty, with labels in range, no batch of one example alone and strictly
    positive initial parameters, [train] returns normally after one epoch at
    least, and the parameters it leaves are probability distributions with
    strictly positive entries: the prior sums to 1 and every column of the
    emission matrix sums to 1. *)
Theorem train_leaves_distributions
        (ln : Qc -> Qc) (dev : device) (m : MultinomialMixture)
        (ds : list (list Z)) (threshold : Qc) (max_epochs : Z) (pr : nat -> Qc) :
  (0 <= max_epochs)%Z ->
  valid_model m = true ->
  valid_parameters m (global_variables_initializer m pr) = true ->
  ds <> [] -> dataset_in_range m ds = true -> no_single_example ds = true ->
  exists e,
    train ln dev m ds threshold max_epochs pr = Some (Ok e)
    /\ (1 <= epochs e)%Z
    /\ valid_parameters m (final e) = true
    /\ reduce_sum (prior (final e)) = 1
    /\ forall c, (c < C m)%nat -> reduce_sum (column (emission (final e)) c) = 1.
Proof.
  intros Hmax Hm Hv Hne Hd Hn.
  pose proof (proj1 (valid_model_iff m) Hm) as (HC & _).
  assert (Hinv : invariant m (global_variables_initializer m pr)).
  { apply (reachable_invariant ln dev m _ Hm). now apply reach_init. }
  destruct (run_epoch_distributions ln dev m ds HC Hne Hd Hn _ None Hinv)
    as (st1 & l & Hrun & Hinv1 & Hd1).
  destruct (train_loop_distributions ln dev m ds threshold max_epochs HC Hne Hd Hn
              (Z.to_nat (max_epochs + 1)) st1 1%Z (Fin l) PosInf (Some l)
              [(1%Z, l)] Hinv1 Hd1)
    as (e & He & Hinve & Hde); [lia|].
  exists e.
  assert (Htrain : train ln dev m ds threshold max_epochs pr = Some (Ok e)).
  { rewrite train_first_iteration by assumption. rewrite Hrun. exact He. }
  split; [exact Htrain|]. split.
  - apply train_loop_grows in He. lia.
  - destruct Hinve as (Hve & _). destruct Hde as [Hp He'].
    split; [exact Hve|]. split; [exact Hp | exact He'].
Qed.

(** * The further statements on concrete inputs *)

(** X1 on [model_2_2]: seven examples in two batches, the default arguments. *)
Lemma train_epoch_budget_witness :
  exists e,
    train rational_log CPU model_2_2 [[0; 0; 0; 1]; [1; 1; 1]]%Z 0 10 prior_draw_2
    = Some (Ok e)
    /\ (0 <= epochs e <= 11)%Z
    /\ epochs e = Z.of_nat (length (printed e)).
Proof.
  destruct (train_returns rational_log CPU model_2_2 [[0; 0; 0; 1]; [1; 1; 1]]%Z
              0 10 prior_draw_2) as (e & He & _); try reflexivity; [discriminate|].
  exists e. split; [exact He|].
  destruct (train_epoch_budget rational_log CPU model_2_2
              [[0; 0; 0; 1]; [1; 1; 1]]%Z 0 10%Z prior_draw_2 e He) as (H1 & H2 & _).
  split; [exact H1 | exact H2].
Defined.

(** X2 on the same run. *)
Lemma train_runs_two_epochs_before_converging_witness :
  exists e,
    train rational_log CPU model_2_2 [[0; 0; 0; 1]; [1; 1; 1]]%Z 0 10 prior_draw_2
    = Some (Ok e)
    /\ (2 <= epochs e)%Z.
Proof.
  apply (train_runs_two_epochs_before_converging rational_log CPU model_2_2
           [[0; 0; 0; 1]; [1; 1; 1]]%Z 0 10%Z prior_draw_2);
    try reflexivity; [discriminate | lia].
Defined.

(** X3 on [model_1_1]: with one hidden state and one symbol the likelihood is
    the same at every epoch, and the run stops after the second. *)
Lemma train_stops_within_budget_on_convergence_witness :
  exists e,
    train rational_log CPU model_1_1 [[0; 0]%Z] 0 10 (fun _ => half) = Some (Ok e)
    /\ epochs e = 2%Z
    /\ exists pre k1 l1 k2 l2,
         printed e = pre ++ [(k1, l1); (k2, l2)] /\ l2 - l1 <= 0.
Proof.
  destruct (train_stops_within_budget_on_convergence rational_log CPU model_1_1
              [[0; 0]%Z] 0 10%Z (fun _ => half))
    as (e & H & Hstop); try reflexivity; [discriminate|].
  exists e. split; [exact H|].
  assert (Hep : epochs e = 2%Z).
  { pose proof H as H0. vm_compute in H0. injection H0 as <-. reflexivity. }
  split; [exact Hep|].
  apply Hstop. rewrite Hep. lia.
Defined.

(** X5 on [model_2_2]: the second batch holds one example. *)
Lemma train_aborts_on_batch_of_one_example_witness :
  (0 <= 10)%Z
  /\ train rational_log GPU model_2_2 [[0; 1]; [1]]%Z 0 10 prior_draw_2
     = Some (Err InvalidArgumentError).
Proof.
  split; [lia|].
  apply train_aborts_on_batch_of_one_example; [lia|].
  exists [1%Z]. split; [simpl; auto | reflexivity].
Defined.

(** X6 on [model_2_2]: four examples in two batches. *)
Lemma pass_counts_examples_witness :
  exists st' lik',
    run_batches rational_log CPU model_2_2 state_2_2 None [[0; 1]; [1; 1]]%Z
    = Ok (st', lik')
    /\ prior st' = prior state_2_2 /\ emission st' = emission state_2_2
    /\ prior_denominator (stats st')
       = prior_denominator (stats state_2_2) + Qc_of_nat 4.
Proof.
  apply (pass_counts_examples rational_log CPU model_2_2 state_2_2 None
           [[0; 1]; [1; 1]]%Z); try reflexivity.
  simpl. lia.
Defined.

(** X7 on the same pass, for the symbol 1. *)
Lemma pass_sums_posteriors_by_symbol_witness :
  exists st' lik',
    run_batches rational_log CPU model_2_2 state_2_2 None [[0; 1]; [1; 1]]%Z
    = Ok (st', lik')
    /\ prior_numerator (stats st')
       = fold_left vadd (map (responsibility state_2_2) [0; 1; 1; 1]%Z)
                   (prior_numerator (stats state_2_2))
    /\ nth 1 (emission_numerator (stats st')) []
       = fold_left vadd (map (responsibility state_2_2) [1; 1; 1]%Z)
                   (nth 1 (emission_numerator (stats state_2_2)) []).
Proof.
  apply (pass_sums_posteriors_by_symbol rational_log CPU model_2_2 state_2_2 None
           [[0; 1]; [1; 1]]%Z 1); try reflexivity.
  simpl. lia.
Defined.

(** X8 on [model_2_2]: the same four observations batched in two ways. *)
Lemma pass_likelihood_independent_of_batching_witness :
  exists st1 lik1 st2 lik2,
    run_batches rational_log CPU model_2_2 state_2_2 None [[0; 1]; [1; 1]]%Z
    = Ok (st1, lik1)
    /\ run_batches rational_log CPU model_2_2 state_2_2 None [[1; 1; 0; 1]]%Z
       = Ok (st2, lik2)
    /\ likelihood st2 = likelihood st1.
Proof.
  destruct (pass_likelihood_independent_of_batching rational_log CPU model_2_2
              state_2_2 [[0; 1]; [1; 1]]%Z [[1; 1; 0; 1]]%Z)
    as (st1 & lik1 & st2 & lik2 & H1 & H2 & _ & H3); try reflexivity.
  - simpl. lia.
  - simpl. apply (Permutation_cons_app [1; 1]%Z [1]%Z 0%Z). apply Permutation_refl.
  - exists st1, lik1, st2, lik2. auto.
Defined.

(** X9 for two hidden states and two symbols. *)
Lemma initial_parameters_are_distributions_witness :
  positive_draws 2 2 draw_2_2 prior_draw_2 = true
  /\ exists m,
       __init__ 2 2 draw_2_2 = Ok m
       /\ valid_parameters m (global_variables_initializer m prior_draw_2) = true
       /\ reduce_sum (prior (global_variables_initializer m prior_draw_2)) = 1.
Proof.
  split; [reflexivity|].
  destruct (initial_parameters_are_distributions 2 2 draw_2_2 prior_draw_2)
    as (m & H1 & _ & H2 & H3 & _); try lia; [reflexivity|].
  exists m. auto.
Defined.

(** X10 on [model_2_2]: the state after the initializer, one training step on
    the batch [[0; 1; 1]] and the end-of-epoch update. *)
Lemma reachable_parameters_stay_positive_witness :
  exists st,
    reachable rational_log CPU model_2_2 st
    /\ prior st <> prior state_2_2
    /\ valid_parameters model_2_2 st = true.
Proof.
  pose (l := compute_likelihood rational_log state_2_2
               (map (numerator_row state_2_2) [0; 1; 1]%Z)
               (map (responsibility state_2_2) [0; 1; 1]%Z)).
  pose (st := {| prior := prior state_2_2; emission := emission state_2_2;
                 stats := accumulate_examples state_2_2 [0; 1; 1]%Z (stats state_2_2);
                 likelihood := l |}).
  exists (m_step_finalize st).
  assert (Hr : reachable rational_log CPU model_2_2 (m_step_finalize st)).
  { apply reach_finalize.
    apply (reach_batch rational_log CPU model_2_2 state_2_2 st [0; 1; 1]%Z l).
    - apply reach_init. reflexivity.
    - reflexivity.
    - apply run_training_step_closed; try reflexivity. simpl. lia. }
  split; [exact Hr|]. split.
  - intros E. apply (f_equal (map this)) in E. vm_compute in E. discriminate.
  - apply (reachable_parameters_stay_positive rational_log CPU model_2_2
             (m_step_finalize st) eq_refl Hr).
Defined.

(** X11 on [model_2_2]: seven examples in two batches. *)
Lemma inferred_states_are_hidden_states_witness :
  exists preds,
    perform_inference CPU model_2_2 state_2_2 [[0; 0; 0; 1]; [1; 1; 1]]%Z
    = Ok (state_2_2, preds)
    /\ length (ravel preds) = 7%nat
    /\ Forall (fun i => (i < 2)%nat) (ravel preds).
Proof.
  apply (inferred_states_are_hidden_states CPU model_2_2 state_2_2
           [[0; 0; 0; 1]; [1; 1; 1]]%Z); try reflexivity.
  simpl. lia.
Defined.

(** X12 on [two_equal_configs]: three configurations, the third unreadable. *)
Lemma process_results_returns_a_best_average_witness :
  exists d,
    KFold.process_results nat two_equal_configs 3 = Ok d
    /\ exists i, (1 <= i <= 3)%nat /\ two_equal_configs i = Some d
                 /\ forall j d', (1 <= j <= 3)%nat -> two_equal_configs j = Some d' ->
                                 KFold.avg_VL_score d' <= KFold.avg_VL_score d.
Proof.
  eexists. split; [reflexivity|].
  destruct (process_results_returns_a_best_average nat two_equal_configs 3 _ eq_refl)
    as (i & H1 & H2 & _ & H3).
  exists i. auto.
Defined.

(** X14 on [two_equal_configs]: the second configuration, with the larger
    standard deviation, is returned. *)
Lemma process_results_takes_the_last_of_the_best_witness :
  KFold.process_results nat two_equal_configs 2
  = Ok {| KFold.avg_VL_score := Q2Qc (4 # 5);
          KFold.std_VL_score := Q2Qc (1 # 2);
          KFold.others := 2%nat |}.
Proof.
  apply (process_results_takes_the_last_of_the_best nat two_equal_configs 1).
  - reflexivity.
  - unfold Qcle, Qle. simpl. lia.
  - reflexivity.
  - intros j d' Hj Hd'. assert (j = 1%nat) by lia. subst j.
    simpl in Hd'. injection Hd' as <-. apply Qcle_refl.
Defined.

(** X15 for the script's sizes, two symbols and one vertex. *)
Lemma base_layer_fails_on_remainder_one_witness :
  (length [0%Z] mod 2000 = 1)%nat
  /\ base_layer rational_log CPU 40 2 2000 [0%Z] draw_2_2 prior_draw_2
     = Some (Err InvalidArgumentError).
Proof.
  split; [reflexivity|].
  apply base_layer_fails_on_remainder_one; try lia. reflexivity.
Defined.

(** X16 for the script's sizes, two symbols and three vertices. *)
Lemma base_layer_returns_a_state_per_vertex_witness :
  positive_draws 40 2 draw_2_2 prior_draw_2 = true
  /\ exists st preds,
       base_layer rational_log CPU 40 2 2000 [0; 1; 0]%Z draw_2_2 prior_draw_2
       = Some (Ok (st, preds))
       /\ length (ravel preds) = 3%nat
       /\ Forall (fun i => (i < 40)%nat) (ravel preds).
Proof.
  split; [reflexivity|].
  destruct (base_layer_returns_a_state_per_vertex rational_log CPU 40 2 2000
              [0; 1; 0]%Z draw_2_2 prior_draw_2)
    as (st & preds & H1 & H2 & H3 & _); try lia; try reflexivity.
  - discriminate.
  - simpl. lia.
  - exists st, preds. auto.
Defined.

(** X17 on [model_2_2]: seven examples in two batches, the default arguments. *)
Lemma train_leaves_distributions_witness :
  exists e,
    train rational_log CPU model_2_2 [[0; 0; 0; 1]; [1; 1; 1]]%Z 0 10 prior_draw_2
    = Some (Ok e)
    /\ valid_parameters model_2_2 (final e) = true
    /\ reduce_sum (prior (final e)) = 1.
Proof.
  destruct (train_leaves_distributions rational_log CPU model_2_2
              [[0; 0; 0; 1]; [1; 1; 1]]%Z 0 10 prior_draw_2)
    as (e & H1 & _ & H2 & H3 & _); try reflexivity; try lia; [discriminate|].
  exists e. auto.
Defined.
